(** * Markdown chunking strategy: shallow embedding and verified properties

    Source: [src/graphrag/index/operations/chunk_text/markdown_strategy.py],
    function [run_markdown].

    Python [str] values are sequences of Unicode code points; they are
    modelled as lists of code points ([N]).  The generator returned by
    [run_markdown] is modelled by the finite list of events (yielded
    chunks and [tick] calls) observed when it is consumed to the end.
    The [print] calls of the source only write to standard output and are
    left out; so is [chunk_count], which is only ever printed.

    The second part embeds the computations on values of
    [src/graphrag/index/input/pdf.py]: [get_category_name],
    [extract_text_from_block], [extract_structured_info] and the output
    directory and document id of [load_pdf]. *)

From Stdlib Require Import List NArith ZArith Bool Arith Lia Ascii String Sorted.
From Stdlib Require DecimalString DecimalZ.
Import ListNotations.

(** ** Python string primitives *)

Module Py.

Definition char := N.
Definition str := list char.

Definition eqb_str (a b : str) : bool :=
  if list_eq_dec N.eq_dec a b then true else false.

(** A string literal of the source, as code points. *)
Definition lit (s : string) : str := map N_of_ascii (list_ascii_of_string s).

Definition NL : char := 10%N.

(** [str.isspace] on one code point ([Py_UNICODE_ISSPACE]); the same
    predicate is behind [str.strip()], [str.split()] and the regex class
    [\s] on [str] patterns. *)
Definition isspace (c : char) : bool :=
  (((9 <=? c) && (c <=? 13)) || ((28 <=? c) && (c <=? 32))
   || (c =? 133) || (c =? 160) || (c =? 5760)
   || ((8192 <=? c) && (c <=? 8202))
   || (c =? 8232) || (c =? 8233) || (c =? 8239) || (c =? 8287)
   || (c =? 12288))%N.

(** [s.lstrip()], [s.rstrip()], [s.strip()]. *)
Fixpoint lstrip (s : str) : str :=
  match s with
  | [] => []
  | c :: r => if isspace c then lstrip r else s
  end.

Definition rstrip (s : str) : str := rev (lstrip (rev s)).

Definition strip (s : str) : str := rstrip (lstrip s).

(** [s.split()]: the maximal runs of non-whitespace characters. *)
Fixpoint split_ws (s : str) : list str :=
  match s with
  | [] => []
  | c :: r =>
      if isspace c then split_ws r
      else match r with
           | [] => [[c]]
           | c' :: _ =>
               if isspace c' then [c] :: split_ws r
               else match split_ws r with
                    | w :: ws => (c :: w) :: ws
                    | [] => [[c]]
                    end
           end
  end.

(** [len(s.split())]. *)
Definition word_count (s : str) : nat := List.length (split_ws s).

(** [s.split('\n\n')]: leftmost, non-overlapping separators; the result
    is never empty. *)
Fixpoint split_blank (s : str) : list str :=
  match s with
  | [] => [[]]
  | c :: r =>
      match r with
      | c' :: r' =>
          if ((c =? NL) && (c' =? NL))%N then [] :: split_blank r'
          else match split_blank r with
               | p :: ps => (c :: p) :: ps
               | [] => [[c]]
               end
      | [] => [[c]]
      end
  end.

(** ["\n\n".join(l)]. *)
Fixpoint join_blank (l : list str) : str :=
  match l with
  | [] => []
  | x :: rest =>
      match rest with
      | [] => x
      | _ :: _ => x ++ [NL; NL] ++ join_blank rest
      end
  end.

(** [x in l] for a list of strings. *)
Definition mem (x : str) (l : list str) : bool := existsb (eqb_str x) l.

End Py.

(** ** The three regular expressions *)

Module Re.
Import Py.

(** Length of the longest prefix of [s] whose characters satisfy [p]. *)
Fixpoint count_prefix (p : char -> bool) (s : str) : nat :=
  match s with
  | c :: r => if p c then S (count_prefix p r) else 0
  | [] => 0
  end.

(** A greedy quantifier with backtracking: the continuation [k] is tried
    with [n] repetitions, then [n-1], ..., down to [lo]. *)
Fixpoint greedy {A : Type} (lo n : nat) (k : nat -> option A) : option A :=
  if n <? lo then None
  else match k n with
       | Some r => Some r
       | None => match n with
                 | O => None
                 | S n' => greedy lo n' k
                 end
       end.

(** [s] minus the literal [lit] at its start, when it starts with it. *)
Fixpoint strip_prefix (lit s : str) : option str :=
  match lit with
  | [] => Some s
  | a :: lit' =>
      match s with
      | [] => None
      | c :: r => if (a =? c)%N then strip_prefix lit' r else None
      end
  end.

(** A lazy [.*?] followed by a literal: what follows the leftmost
    occurrence of [lit] in [s]. *)
Fixpoint find_after (lit s : str) : option str :=
  match strip_prefix lit s with
  | Some r => Some r
  | None => match s with
            | [] => None
            | _ :: r => find_after lit r
            end
  end.

(** [pattern.search]: the match is attempted at every position from the
    left. *)
Fixpoint search (m : str -> bool) (s : str) : bool :=
  m s || match s with
         | [] => false
         | _ :: r => search m r
         end.

Definition is_hash (c : char) : bool := (c =? 35)%N.
Definition not_newline (c : char) : bool := negb (c =? NL)%N.

(** [$] under [re.MULTILINE]: at the end of the string or just before a
    newline. *)
Definition at_line_end (s : str) : bool :=
  match s with
  | [] => true
  | c :: _ => (c =? NL)%N
  end.

(** [header_pattern.match(s)] for
    [header_pattern = re.compile(r'^(#{1,6})\s+(.+)$', re.MULTILINE)].
    [match] anchors the attempt at position 0, where [^] holds.  The
    result is [(group(1), group(2))]. *)
Definition header_pattern_match (s : str) : option (str * str) :=
  greedy 1 (Nat.min 6 (count_prefix is_hash s)) (fun a =>
    let r1 := skipn a s in
    greedy 1 (count_prefix isspace r1) (fun b =>
      let r2 := skipn b r1 in
      greedy 1 (count_prefix not_newline r2) (fun c =>
        if at_line_end (skipn c r2)
        then Some (firstn a s, firstn c r2)
        else None))).

Definition is_some {A : Type} (o : option A) : bool :=
  match o with Some _ => true | None => false end.

(** One attempt of
    [(<html>.*?<table>.*?</table>.*?</html>|<table>.*?</table>)]
    ([re.DOTALL]) at the start of [s]: first alternative, then second.
    Under DOTALL a lazy [.*?] before a literal succeeds exactly when the
    literal occurs later, and its leftmost occurrence leaves the most
    text for what follows. *)
Definition table_alt_html (s : str) : bool :=
  match strip_prefix (lit "<html>") s with
  | None => false
  | Some r0 =>
      match find_after (lit "<table>") r0 with
      | None => false
      | Some r1 =>
          match find_after (lit "</table>") r1 with
          | None => false
          | Some r2 => is_some (find_after (lit "</html>") r2)
          end
      end
  end.

Definition table_alt_bare (s : str) : bool :=
  match strip_prefix (lit "<table>") s with
  | None => false
  | Some r0 => is_some (find_after (lit "</table>") r0)
  end.

(** [bool(table_pattern.search(s))]. *)
Definition table_pattern_search (s : str) : bool :=
  search (fun t => table_alt_html t || table_alt_bare t) s.

(** The part of [s] before its first newline: without DOTALL, [.] stops
    there. *)
Definition first_line (s : str) : str := firstn (count_prefix not_newline s) s.

(** One attempt of [!\[.*?\]\(.*?\)] at the start of [s]. *)
Definition image_at (s : str) : bool :=
  match strip_prefix (lit "![") s with
  | None => false
  | Some r0 =>
      match find_after (lit "](") (first_line r0) with
      | None => false
      | Some r1 => is_some (find_after (lit ")") r1)
      end
  end.

(** [bool(image_pattern.search(s))]. *)
Definition image_pattern_search (s : str) : bool := search image_at s.

End Re.

(** ** Data model *)

Import Py Re.

(** Modelled from the spec: [ChunkingConfig] is declared in
    graphrag/config/models/chunking_config.py, outside the sources at
    hand.  [run_markdown] reads two of its fields: [size], the
    word-count threshold, and [overlap], which it only prints. *)
Record ChunkingConfig := { size : Z; overlap : Z }.

(** Modelled from the spec: [TextChunk] is declared in
    graphrag/index/operations/chunk_text/typing.py, outside the sources
    at hand.  [run_markdown] builds it from these three fields. *)
Record TextChunk := {
  text_chunk : str;
  source_doc_indices : list nat;
  n_tokens : nat
}.

(** What a consumer of the generator observes: a yielded chunk, or a call
    [tick(n)] of the progress callback. *)
Inductive event :=
| Yield (c : TextChunk)
| Tick (n : nat).

(** The local variables that survive from one paragraph to the next. *)
Record state := {
  current_chunk : list str;
  current_header_level : nat;
  current_header : str
}.

(** Truth value of a Python [str] or [list]: non-empty. *)
Definition truthy {A : Type} (l : list A) : bool :=
  match l with
  | [] => false
  | _ :: _ => true
  end.

(** [f"{current_header}\n\n{chunk_text}"]. *)
Definition with_header (header chunk_text : str) : str :=
  header ++ [NL; NL] ++ chunk_text.

(** ** The chunker *)

(** State at the start of each document (lines 47-49). *)
Definition initial_state : state :=
  {| current_chunk := []; current_header_level := 0; current_header := [] |}.

(** Body of the loop over paragraphs (lines 52-138): the new state and the
    chunks yielded while handling [paragraph]. *)
Definition loop_body (config : ChunkingConfig) (doc_idx : nat)
    (st : state) (paragraph : str) : state * list TextChunk :=
  match header_pattern_match (strip paragraph) with
  | Some (group1, _) =>
      let header_level := List.length group1 in
      let '(current_chunk', yielded) :=
        if truthy (current_chunk st)
           && ((header_level <=? current_header_level st)
               || (current_header_level st =? 0))
        then
          let chunk_text := join_blank (current_chunk st) in
          let chunk_text :=
            if truthy (current_header st)
            then with_header (current_header st) chunk_text
            else chunk_text in
          ([], [ {| text_chunk := chunk_text;
                    source_doc_indices := [doc_idx];
                    n_tokens := word_count chunk_text |} ])
        else (current_chunk st, []) in
      ({| current_chunk := current_chunk';
          current_header_level := header_level;
          current_header := paragraph |}, yielded)
  | None =>
      let has_table := table_pattern_search paragraph in
      let has_image := image_pattern_search paragraph in
      if has_table || has_image then
        let '(current_chunk', current_header') :=
          if negb (truthy (current_chunk st)) && truthy (current_header st)
          then ([current_header st], [])
          else (current_chunk st, current_header st) in
        let current_chunk' := current_chunk' ++ [paragraph] in
        let chunk_size := word_count (join_blank current_chunk') in
        if (size config <? Z.of_nat chunk_size)%Z then
          let chunk_text := join_blank current_chunk' in
          ({| current_chunk := [];
              current_header_level := current_header_level st;
              current_header := current_header' |},
           [ {| text_chunk := chunk_text;
                source_doc_indices := [doc_idx];
                n_tokens := chunk_size |} ])
        else
          ({| current_chunk := current_chunk';
              current_header_level := current_header_level st;
              current_header := current_header' |}, [])
      else
        let current_chunk' := current_chunk st ++ [paragraph] in
        let chunk_size := word_count (join_blank current_chunk') in
        if (size config <? Z.of_nat chunk_size)%Z then
          let chunk_text := join_blank current_chunk' in
          ({| current_chunk := [];
              current_header_level := current_header_level st;
              current_header := current_header st |},
           [ {| text_chunk := chunk_text;
                source_doc_indices := [doc_idx];
                n_tokens := chunk_size |} ])
        else
          ({| current_chunk := current_chunk';
              current_header_level := current_header_level st;
              current_header := current_header st |}, [])
  end.

(** The loop over the paragraphs of one document. *)
Fixpoint for_paragraphs (config : ChunkingConfig) (doc_idx : nat)
    (st : state) (paragraphs : list str) : state * list TextChunk :=
  match paragraphs with
  | [] => (st, [])
  | paragraph :: rest =>
      let '(st1, yielded1) := loop_body config doc_idx st paragraph in
      let '(st2, yielded2) := for_paragraphs config doc_idx st1 rest in
      (st2, yielded1 ++ yielded2)
  end.

(** The last chunk of a document (lines 141-154). *)
Definition last_chunk (doc_idx : nat) (st : state) : list TextChunk :=
  if truthy (current_chunk st) then
    let chunk_text := join_blank (current_chunk st) in
    let chunk_text :=
      if truthy (current_header st)
         && negb (mem (current_header st) (current_chunk st))
      then with_header (current_header st) chunk_text
      else chunk_text in
    [ {| text_chunk := chunk_text;
         source_doc_indices := [doc_idx];
         n_tokens := word_count chunk_text |} ]
  else [].

(** The chunks of one non-empty document, in the order they are yielded. *)
Definition document_chunks (config : ChunkingConfig) (doc_idx : nat)
    (text : str) : list TextChunk :=
  let paragraphs := split_blank text in
  let '(st, yielded) := for_paragraphs config doc_idx initial_state paragraphs in
  yielded ++ last_chunk doc_idx st.

(** Body of the loop over documents (lines 35-157). *)
Definition run_document (config : ChunkingConfig) (doc_idx : nat)
    (text : str) : list event :=
  if negb (truthy text) then [Tick 1]
  else map Yield (document_chunks config doc_idx text) ++ [Tick 1].

Fixpoint run_from (config : ChunkingConfig) (doc_idx : nat)
    (input : list str) : list event :=
  match input with
  | [] => []
  | text :: rest =>
      run_document config doc_idx text ++ run_from config (S doc_idx) rest
  end.

(** [run_markdown(input, config, tick)], consumed to the end. *)
Definition run_markdown (input : list str) (config : ChunkingConfig)
  : list event :=
  run_from config 0 input.

(** ** Sample documents *)

(** The document of the specification's scenario:
    ["# Title\n\nAlpha beta.\n\nGamma delta epsilon zeta."]. *)
Definition scenario : str :=
  lit "# Title" ++ [NL; NL] ++ lit "Alpha beta." ++ [NL; NL]
  ++ lit "Gamma delta epsilon zeta.".

(** Its two plain paragraphs, joined by a blank line. *)
Definition two_paragraphs : str :=
  lit "Alpha beta." ++ [NL; NL] ++ lit "Gamma delta epsilon zeta.".

(** ["# Title\nbody"]: a header line and a body line in one paragraph. *)
Definition header_then_body : str := lit "# Title" ++ [NL] ++ lit "body".

Definition header_with_image : str := lit "# ![a](b)".

Definition image_paragraph : str := lit "x ![a](b)".

(** [" \n\n "]: two paragraphs of one space each. *)
Definition blank_document : str := [32%N; NL; NL; 32%N].

(** ** Ghost trace

    The same loop, with every entry of [current_chunk] labelled by the
    position of its paragraph in the document and by whether it is a
    header that was put there as context (line 101), and with every
    yielded chunk recorded together with the place that yielded it.
    [loop_body_erase] and [document_chunks_trace] below show that
    forgetting the labels gives back the chunker above. *)

Module Trace.

Record item := {
  from_header : bool;
  idx : nat;
  txt : str
}.

(** The three places that yield: lines 71, 115/133 and 150. *)
Inductive site := AtHeader | AtSizeCheck | AtEnd.

Record flushed := {
  flush_site : site;
  prefix : option item;
  items : list item
}.

Record tstate := {
  t_chunk : list item;
  t_header_level : nat;
  t_header : str;
  t_header_idx : nat
}.

Definition erase (ts : tstate) : state :=
  {| current_chunk := map txt (t_chunk ts);
     current_header_level := t_header_level ts;
     current_header := t_header ts |}.

Definition body (f : flushed) : str := join_blank (map txt (items f)).

Definition prefix_text (f : flushed) : str :=
  match prefix f with
  | Some h => txt h
  | None => []
  end.

(** The chunk a record stands for. *)
Definition render (doc_idx : nat) (f : flushed) : TextChunk :=
  let chunk_text :=
    match prefix f with
    | Some h => with_header (txt h) (body f)
    | None => body f
    end in
  {| text_chunk := chunk_text;
     source_doc_indices := [doc_idx];
     n_tokens := word_count chunk_text |}.

Definition header_item (ts : tstate) : item :=
  {| from_header := true; idx := t_header_idx ts; txt := t_header ts |}.

Definition initial_tstate : tstate :=
  {| t_chunk := []; t_header_level := 0; t_header := []; t_header_idx := 0 |}.

Definition loop_body (config : ChunkingConfig) (ts : tstate)
    (para_idx : nat) (paragraph : str) : tstate * list flushed :=
  match header_pattern_match (strip paragraph) with
  | Some (group1, _) =>
      let header_level := List.length group1 in
      let '(t_chunk', yielded) :=
        if truthy (t_chunk ts)
           && ((header_level <=? t_header_level ts)
               || (t_header_level ts =? 0))
        then
          ([], [ {| flush_site := AtHeader;
                    prefix := if truthy (t_header ts)
                              then Some (header_item ts) else None;
                    items := t_chunk ts |} ])
        else (t_chunk ts, []) in
      ({| t_chunk := t_chunk';
          t_header_level := header_level;
          t_header := paragraph;
          t_header_idx := para_idx |}, yielded)
  | None =>
      let this := {| from_header := false; idx := para_idx; txt := paragraph |} in
      let has_table := table_pattern_search paragraph in
      let has_image := image_pattern_search paragraph in
      let '(t_chunk', t_header') :=
        if (has_table || has_image)
           && negb (truthy (t_chunk ts)) && truthy (t_header ts)
        then ([header_item ts], [])
        else (t_chunk ts, t_header ts) in
      let t_chunk' := t_chunk' ++ [this] in
      let chunk_size := word_count (join_blank (map txt t_chunk')) in
      if (size config <? Z.of_nat chunk_size)%Z then
        ({| t_chunk := [];
            t_header_level := t_header_level ts;
            t_header := t_header';
            t_header_idx := t_header_idx ts |},
         [ {| flush_site := AtSizeCheck; prefix := None; items := t_chunk' |} ])
      else
        ({| t_chunk := t_chunk';
            t_header_level := t_header_level ts;
            t_header := t_header';
            t_header_idx := t_header_idx ts |}, [])
  end.

Fixpoint for_paragraphs (config : ChunkingConfig) (ts : tstate)
    (para_idx : nat) (paragraphs : list str) : tstate * list flushed :=
  match paragraphs with
  | [] => (ts, [])
  | paragraph :: rest =>
      let '(ts1, yielded1) := loop_body config ts para_idx paragraph in
      let '(ts2, yielded2) := for_paragraphs config ts1 (S para_idx) rest in
      (ts2, yielded1 ++ yielded2)
  end.

Definition last_chunk (ts : tstate) : list flushed :=
  if truthy (t_chunk ts) then
    [ {| flush_site := AtEnd;
         prefix := if truthy (t_header ts)
                      && negb (mem (t_header ts) (map txt (t_chunk ts)))
                   then Some (header_item ts) else None;
         items := t_chunk ts |} ]
  else [].

Definition document_trace (config : ChunkingConfig) (text : str)
  : list flushed :=
  let '(ts, yielded) :=
    for_paragraphs config initial_tstate 0 (split_blank text) in
  yielded ++ last_chunk ts.

(** The paragraphs (with their positions) that a record holds because
    they were appended to [current_chunk] as paragraphs, not as header
    context. *)
Definition appended (f : flushed) : list (nat * str) :=
  map (fun it => (idx it, txt it))
      (filter (fun it => negb (from_header it)) (items f)).

(** The appended paragraphs still in [current_chunk], and the word count
    of its joined entries. *)
Definition pending (ts : tstate) : list (nat * str) :=
  map (fun it => (idx it, txt it))
      (filter (fun it => negb (from_header it)) (t_chunk ts)).

Definition pending_words (ts : tstate) : Z :=
  Z.of_nat (word_count (join_blank (map txt (t_chunk ts)))).

(** Record [f] holds the paragraph at position [i]. *)
Definition holds (i : nat) (f : flushed) : Prop :=
  exists p, In (i, p) (appended f).

End Trace.

(** ** Classification predicates *)

(** The branch taken at line 56. *)
Definition is_header (paragraph : str) : bool :=
  is_some (header_pattern_match (strip paragraph)).

(** The test of line 97. *)
Definition is_table_or_image (paragraph : str) : bool :=
  table_pattern_search paragraph || image_pattern_search paragraph.

(** The header form as the specification words it: the whole string is one
    line made of 1 to 6 [#] characters, then whitespace, then header
    text. *)
Definition spec_atx_header_line (s : str) : bool :=
  let hashes := count_prefix is_hash s in
  let after_hashes := skipn hashes s in
  let blanks := count_prefix isspace after_hashes in
  (1 <=? hashes) && (hashes <=? 6) && (1 <=? blanks)
  && truthy (skipn blanks after_hashes)
  && forallb not_newline s.

(** What the pattern asks of a trimmed paragraph: 1 to 6 [#] characters
    and then a whitespace character. *)
Definition header_start (s : str) : bool :=
  let hashes := count_prefix is_hash s in
  (1 <=? hashes) && (hashes <=? 6)
  && match skipn hashes s with
     | c :: _ => isspace c
     | [] => false
     end.

(** Number of [tick] calls in a run. *)
Definition tick_calls (evs : list event) : nat :=
  List.length (filter (fun e => match e with Tick _ => true | Yield _ => false end) evs).

(** The chunks of a run, in order. *)
Fixpoint yielded_chunks (evs : list event) : list TextChunk :=
  match evs with
  | [] => []
  | Yield c :: rest => c :: yielded_chunks rest
  | Tick _ :: rest => yielded_chunks rest
  end.

Definition enumerate {A : Type} (start : nat) (l : list A) : list (nat * A) :=
  combine (seq start (List.length l)) l.

(** The paragraphs of a list that do not take the header branch, with
    their positions. *)
Definition non_headers (start : nat) (paragraphs : list str)
  : list (nat * str) :=
  filter (fun ip => negb (is_header (snd ip))) (enumerate start paragraphs).

(** The paragraphs of a document that reach [current_chunk] by lines 105
    and 123, with their positions: none for the empty document, which is
    skipped at line 38. *)
Definition appended_paragraphs (text : str) : list (nat * str) :=
  if negb (truthy text) then [] else non_headers 0 (split_blank text).

(** The ghost trace of [run_document]. *)
Definition run_document_trace (config : ChunkingConfig) (text : str)
  : list Trace.flushed :=
  if negb (truthy text) then [] else Trace.document_trace config text.

(** The ghost trace of a whole run: each record with the index of its
    document. *)
Fixpoint run_from_trace (config : ChunkingConfig) (doc_idx : nat)
    (input : list str) : list (nat * Trace.flushed) :=
  match input with
  | [] => []
  | text :: rest =>
      map (pair doc_idx) (run_document_trace config text)
      ++ run_from_trace config (S doc_idx) rest
  end.

Definition run_markdown_trace (input : list str) (config : ChunkingConfig)
  : list (nat * Trace.flushed) :=
  run_from_trace config 0 input.

Definition render_at (df : nat * Trace.flushed) : TextChunk :=
  Trace.render (fst df) (snd df).

(** The token estimate is the word count of the text. *)
Definition tokens_fresh (c : TextChunk) : Prop :=
  n_tokens c = word_count (text_chunk c).

(** A string of whitespace only. *)
Definition all_space (s : str) : Prop := forallb isspace s = true.

(** A string as [strip] leaves it: it does not end with whitespace. *)
Definition stripped (s : str) : Prop :=
  forall l c, s = l ++ [c] -> isspace c = false.

(** Where a paragraph may sit inside a chunk text: at its start or right
    after a blank line, and up to its end or a blank line. *)
Definition ends_with_blank (pre : str) : Prop :=
  pre = [] \/ exists pre', pre = pre' ++ [NL; NL].

Definition starts_with_blank (post : str) : Prop :=
  post = [] \/ exists post', post = [NL; NL] ++ post'.

(** ** Notions for whole runs *)

(** A chunk with its document indices moved by [k]. *)
Definition relabel (k : nat) (c : TextChunk) : TextChunk :=
  {| text_chunk := text_chunk c;
     source_doc_indices := map (Nat.add k) (source_doc_indices c);
     n_tokens := n_tokens c |}.

Definition shift_doc (k : nat) (e : event) : event :=
  match e with
  | Yield c => Yield (relabel k c)
  | Tick n => Tick n
  end.

(** Sum of the token estimates of a list of chunks. *)
Definition total_tokens (chunks : list TextChunk) : nat :=
  list_sum (map n_tokens chunks).

(** The document indices carried by a list of chunks, in order. *)
Definition chunk_docs (chunks : list TextChunk) : list nat :=
  List.concat (map source_doc_indices chunks).

(** ** Headers in the ghost trace *)

(** The entries of a list that are header context, with their positions. *)
Definition seeded (l : list Trace.item) : list (nat * str) :=
  map (fun it => (Trace.idx it, Trace.txt it)) (filter Trace.from_header l).

(** The header paragraphs that a record carries: the header seeded into
    [current_chunk] (line 101) and the header put in front when the chunk
    was yielded (lines 66 and 145). *)
Definition attached (f : Trace.flushed) : list (nat * str) :=
  seeded (Trace.items f)
  ++ match Trace.prefix f with
     | Some h => [(Trace.idx h, Trace.txt h)]
     | None => []
     end.

(** The header paragraphs that may still be attached to a later chunk. *)
Definition live (ts : Trace.tstate) : list (nat * str) :=
  seeded (Trace.t_chunk ts)
  ++ if truthy (Trace.t_header ts)
     then [(Trace.t_header_idx ts, Trace.t_header ts)]
     else [].

(** The paragraphs of a list that take the header branch, with their
    positions. *)
Definition headers (start : nat) (paragraphs : list str) : list (nat * str) :=
  filter (fun ip => is_header (snd ip)) (enumerate start paragraphs).

(** Words of a list of positioned paragraphs. *)
Definition words_of (l : list (nat * str)) : nat :=
  list_sum (map (fun ip => word_count (snd ip)) l).

(** Words of a chunk: of the header put in front of it and of its joined
    entries. *)
Definition chunk_words (f : Trace.flushed) : nat :=
  word_count (Trace.prefix_text f) + word_count (Trace.body f).

(** Words of the last entry of a chunk. *)
Definition last_words (f : Trace.flushed) : nat :=
  word_count (last (map Trace.txt (Trace.items f)) []).

(** The size relation that each yielding place establishes with
    [config.size]: the size check yields a chunk that is over the
    threshold, by its last paragraph and the header text attached to it
    at most; the other places yield joined entries within the
    threshold. *)
Definition soft_bound (config : ChunkingConfig) (f : Trace.flushed) : Prop :=
  match Trace.flush_site f with
  | Trace.AtSizeCheck =>
      (size config < Z.of_nat (chunk_words f))%Z
      /\ (Z.of_nat (chunk_words f)
          <= size config + Z.of_nat (last_words f)
             + Z.of_nat (words_of (attached f)))%Z
  | _ => (Z.of_nat (word_count (Trace.body f)) <= size config)%Z
  end.

(** A string that ends with a newline. *)
Definition ends_with_newline (s : str) : Prop := exists l, s = l ++ [NL].

(** The document ends with a header paragraph that ends with a newline. *)
Definition trailing_header (text : str) : Prop :=
  is_header (last (split_blank text) []) = true
  /\ ends_with_newline (last (split_blank text) []).

(** The paragraphs read back from the text of a chunk: its pieces between
    blank lines, without the header paragraphs. *)
Definition recovered_paragraphs (c : TextChunk) : list str :=
  filter (fun p => negb (is_header p)) (split_blank (text_chunk c)).

(** ["# A\n\nx\n\n## B\n"]: a section, and a deeper header that ends the
    document. *)
Definition trailing_header_document : str :=
  lit "# A" ++ [NL; NL] ++ lit "x" ++ [NL; NL] ++ lit "## B" ++ [NL].

(** ["## B\n\n\nx"]: a header, and a paragraph that begins with a
    newline. *)
Definition leading_newline_document : str :=
  lit "## B" ++ [NL; NL; NL] ++ lit "x".

(** Header paragraphs of [all], at increasing positions below [bound]. *)
Definition header_positions (all : list str) (bound : nat)
    (l : list (nat * str)) : Prop :=
  StronglySorted lt (map fst l)
  /\ Forall (fun ks => fst ks < bound
                       /\ nth_error all (fst ks) = Some (snd ks)
                       /\ is_header (snd ks) = true) l.

(** A non-empty [current_chunk] ends with an appended paragraph. *)
Definition ends_with_paragraph (l : list Trace.item) : Prop :=
  l = [] \/ exists l' it, l = l' ++ [it] /\ Trace.from_header it = false.











(** ** PDF loader: pure parts

    Source: [src/graphrag/index/input/pdf.py].  The loader talks to a
    remote service, to storage and to pandas; what is embedded here are
    its computations on values: the name of a category, the text of a
    parsed block, and the output directory and document id of
    [load_pdf]. *)

(** *** [get_category_name] *)

(** [str(n)] for a Python [int]. *)
Definition str_of_int (n : Z) : str :=
  lit (DecimalString.NilZero.string_of_int (Z.to_int n)).

(** The dictionary [categories] (lines 93-107). *)
Definition categories : list (Z * str) :=
  [ (0, lit "title"); (1, lit "plain_text"); (2, lit "abandon");
    (3, lit "figure"); (4, lit "figure_caption"); (5, lit "table");
    (6, lit "table_caption"); (7, lit "table_footnote");
    (8, lit "isolate_formula"); (9, lit "formula_caption");
    (13, lit "embedding"); (14, lit "isolated"); (15, lit "text") ]%Z.

(** [d.get(k)] for a dictionary with integer keys. *)
Fixpoint int_dict_get (k : Z) (d : list (Z * str)) : option str :=
  match d with
  | [] => None
  | (k', v) :: rest => if (k =? k')%Z then Some v else int_dict_get k rest
  end.

(** [get_category_name(category_id)] for an integer [category_id]. *)
Definition get_category_name (category_id : Z) : str :=
  match int_dict_get category_id categories with
  | Some name => name
  | None => lit "unknown_" ++ str_of_int category_id
  end.

(** The id that a category name stands for in [categories], if any. *)
Fixpoint category_of_name (name : str) (d : list (Z * str)) : option Z :=
  match d with
  | [] => None
  | (k, v) :: rest =>
      if eqb_str name v then Some k else category_of_name name rest
  end.

(** *** Output directory and document id of [load_pdf] *)

(** [s.endswith(suffix)]. *)
Definition endswith (s suffix : str) : bool :=
  (List.length suffix <=? List.length s)
  && eqb_str (skipn (List.length s - List.length suffix) s) suffix.

(** Lines 251-253 (and 169-171):
    [if not output_dir.endswith('/auto'): output_dir = f"{output_dir}/auto"]. *)
Definition auto_output_dir (output_dir : str) : str :=
  if negb (endswith output_dir (lit "/auto"))
  then output_dir ++ lit "/auto"
  else output_dir.

Definition not_slash (c : char) : bool := negb (c =? 47)%N.

(** [$] without [re.MULTILINE]: at the end of the string, or before a
    newline that ends the string. *)
Definition at_string_end (s : str) : bool :=
  match s with
  | [] => true
  | [c] => (c =? NL)%N
  | _ :: _ :: _ => false
  end.

(** One attempt of [\/([^\/]+)\/auto$] at the start of [s]; the result is
    [group(1)]. *)
Definition id_pattern_at (s : str) : option str :=
  match strip_prefix (lit "/") s with
  | None => None
  | Some r =>
      greedy 1 (count_prefix not_slash r) (fun n =>
        match strip_prefix (lit "/auto") (skipn n r) with
        | Some t => if at_string_end t then Some (firstn n r) else None
        | None => None
        end)
  end.

(** [pattern.search] with its result: the first position, from the left,
    where an attempt succeeds. *)
Fixpoint search_first {A : Type} (m : str -> option A) (s : str) : option A :=
  match m s with
  | Some x => Some x
  | None => match s with
            | [] => None
            | _ :: r => search_first m r
            end
  end.

(** [re.search(r'\/([^\/]+)\/auto$', output_dir)], as [group(1)]. *)
Definition id_pattern_search (output_dir : str) : option str :=
  search_first id_pattern_at output_dir.

(** Lines 251-258: the document id computed from the [output_dir] that
    the parsing service returned and from the path of the file. *)
Definition load_doc_id (output_dir path : str) : str :=
  let output_dir := auto_output_dir output_dir in
  match id_pattern_search output_dir with
  | Some group1 => group1
  | None => path
  end.

(** Number of slashes in a string. *)
Definition slashes (s : str) : nat :=
  List.length (filter (fun c => negb (not_slash c)) s).

(** *** [extract_text_from_block] *)

(** A value decoded from JSON ([response.json()]).  A dictionary is the
    list of its items, in insertion order and with distinct keys; the
    numbers are the integers (JSON numbers with a fraction are left
    out). *)
#[local] Unset Elimination Schemes.
Inductive json :=
| JNull
| JBool (b : bool)
| JNum (n : Z)
| JStr (s : str)
| JList (l : list json)
| JDict (d : list (str * json)).
#[local] Set Elimination Schemes.

Fixpoint dict_lookup (k : str) (d : list (str * json)) : option json :=
  match d with
  | [] => None
  | (k', v) :: rest => if eqb_str k k' then Some v else dict_lookup k rest
  end.

(** The operations below return [None] where Python raises. *)

(** [k in v] for a string [k]: a key of a dictionary, an element of a
    list, a substring of a string; [TypeError] otherwise. *)
Definition py_contains (k : str) (v : json) : option bool :=
  match v with
  | JDict d => Some (is_some (dict_lookup k d))
  | JList l =>
      Some (existsb (fun e => match e with
                              | JStr s => eqb_str s k
                              | _ => false
                              end) l)
  | JStr s => Some (is_some (find_after k s))
  | _ => None
  end.

(** [v[k]] for a string [k]: defined on a dictionary that has the key. *)
Definition py_getitem (v : json) (k : str) : option json :=
  match v with
  | JDict d => dict_lookup k d
  | _ => None
  end.

(** [for x in v]: the elements of a list, the keys of a dictionary, the
    characters of a string; [TypeError] otherwise. *)
Definition py_iter (v : json) : option (list json) :=
  match v with
  | JList l => Some l
  | JDict d => Some (map (fun kv => JStr (fst kv)) d)
  | JStr s => Some (map (fun c => JStr [c]) s)
  | _ => None
  end.

(** [v.get(k)]: defined on dictionaries only, [None] for a missing key. *)
Definition py_get (v : json) (k : str) : option json :=
  match v with
  | JDict d => Some match dict_lookup k d with
                    | Some x => x
                    | None => JNull
                    end
  | _ => None
  end.

(** [v == 'text']. *)
Definition is_text (v : json) : bool :=
  match v with
  | JStr s => eqb_str s (lit "text")
  | _ => false
  end.

(** A [for] loop whose body may raise. *)
Fixpoint for_each {S X : Type} (body : S -> X -> option S) (acc : S)
    (l : list X) : option S :=
  match l with
  | [] => Some acc
  | x :: rest =>
      match body acc x with
      | Some acc' => for_each body acc' rest
      | None => None
      end
  end.

(** Lines 86-87, for one [span]. *)
Definition span_body (text : str) (span : json) : option str :=
  match py_get span (lit "type") with
  | None => None
  | Some t =>
      if is_text t then
        match py_contains (lit "content") span with
        | None => None
        | Some false => Some text
        | Some true =>
            match py_getitem span (lit "content") with
            | Some (JStr content) => Some (text ++ (content ++ lit " "))
            | _ => None
            end
        end
      else Some text
  end.

(** Lines 84-87, for one [line]. *)
Definition line_body (text : str) (line : json) : option str :=
  match py_contains (lit "spans") line with
  | None => None
  | Some false => Some text
  | Some true =>
      match py_getitem line (lit "spans") with
      | None => None
      | Some spans =>
          match py_iter spans with
          | None => None
          | Some l => for_each span_body text l
          end
      end
  end.

(** [extract_text_from_block(block)]. *)
Definition extract_text_from_block (block : json) : option str :=
  let text := [] in
  match py_contains (lit "lines") block with
  | None => None
  | Some false => Some (strip text)
  | Some true =>
      match py_getitem block (lit "lines") with
      | None => None
      | Some lines =>
          match py_iter lines with
          | None => None
          | Some l =>
              match for_each line_body text l with
              | Some text' => Some (strip text')
              | None => None
              end
          end
      end
  end.

(** A block as the parsing service writes it: lines of spans, a span with
    a type and, possibly, a content. *)
Record span := { span_type : str; span_content : option str }.

Definition json_of_span (sp : span) : json :=
  JDict ((lit "type", JStr (span_type sp))
         :: match span_content sp with
            | Some c => [(lit "content", JStr c)]
            | None => []
            end).

Definition json_of_line (spans : list span) : json :=
  JDict [(lit "spans", JList (map json_of_span spans))].

Definition json_of_block (lines : list (list span)) : json :=
  JDict [(lit "lines", JList (map json_of_line lines))].

(** The contents of the text spans of one line. *)
Definition span_texts (spans : list span) : list str :=
  flat_map (fun sp =>
              if eqb_str (span_type sp) (lit "text")
              then match span_content sp with
                   | Some c => [c]
                   | None => []
                   end
              else [])
           spans.

(** The contents of the spans of type [text] of a block, in reading
    order. *)
Definition text_contents (lines : list (list span)) : list str :=
  span_texts (List.concat lines).

(** Each content followed by one space, as line 87 builds the text. *)
Definition spaced (contents : list str) : str :=
  List.concat (map (fun c => c ++ lit " ") contents).

(** A JSON value that is not a string. *)
Definition not_a_string (v : json) : Prop :=
  match v with
  | JStr _ => False
  | _ => True
  end.

(** A JSON span, line or block read as typed data: a span is a dictionary
    with a string under [type] and, under [content], a string or nothing;
    a line is a dictionary with a list of spans under [spans]; a block is
    a dictionary with a list of lines under [lines].  Other keys may be
    present. *)
Definition span_view (j : json) (sp : span) : Prop :=
  exists d,
    j = JDict d
    /\ dict_lookup (lit "type") d = Some (JStr (span_type sp))
    /\ dict_lookup (lit "content") d = option_map JStr (span_content sp).

Definition line_view (j : json) (spans : list span) : Prop :=
  exists d js,
    j = JDict d
    /\ dict_lookup (lit "spans") d = Some (JList js)
    /\ Forall2 span_view js spans.

Definition block_view (j : json) (lines : list (list span)) : Prop :=
  exists d js,
    j = JDict d
    /\ dict_lookup (lit "lines") d = Some (JList js)
    /\ Forall2 line_view js lines.

(** A block of one line, with a bounding box beside its text span. *)
Definition sample_block : json :=
  JDict
    [ (lit "type", JStr (lit "text"));
      (lit "lines",
       JList
         [ JDict
             [ (lit "bbox", JList [JNum 1; JNum 2]);
               (lit "spans",
                JList
                  [ JDict [ (lit "bbox", JList []);
                            (lit "content", JStr (lit " Alpha beta "));
                            (lit "type", JStr (lit "text")) ];
                    JDict [ (lit "type", JStr (lit "inline_equation"));
                            (lit "content", JStr (lit "x^2")) ];
                    JDict [ (lit "type", JStr (lit "text")) ] ]) ] ]) ].

Definition sample_lines : list (list span) :=
  [ [ {| span_type := lit "text"; span_content := Some (lit " Alpha beta ") |};
      {| span_type := lit "inline_equation"; span_content := Some (lit "x^2") |};
      {| span_type := lit "text"; span_content := None |} ] ].





(** *** [extract_structured_info] *)

(** Truth value of a JSON value. *)
Definition py_truthy (v : json) : bool :=
  match v with
  | JNull => false
  | JBool b => b
  | JNum n => negb (n =? 0)%Z
  | JStr s => truthy s
  | JList l => truthy l
  | JDict d => truthy d
  end.

(** [len(v)]: defined on strings, lists and dictionaries. *)
Definition py_len (v : json) : option nat :=
  match v with
  | JStr s => Some (List.length s)
  | JList l => Some (List.length l)
  | JDict d => Some (List.length d)
  | _ => None
  end.

(** [v.items()]: defined on dictionaries only. *)
Definition py_items (v : json) : option (list (str * json)) :=
  match v with
  | JDict d => Some d
  | _ => None
  end.

(** [v.get(k, default)]: defined on dictionaries only. *)
Definition py_get_default (v : json) (k : str) (default : json)
  : option json :=
  match v with
  | JDict d => Some match dict_lookup k d with
                    | Some x => x
                    | None => default
                    end
  | _ => None
  end.

(** [d[k] = v]: the value of an existing key is replaced in place, a new
    key goes to the end. *)
Fixpoint dict_set (d : list (str * json)) (k : str) (v : json)
  : list (str * json) :=
  match d with
  | [] => [(k, v)]
  | (k', v') :: rest =>
      if eqb_str k k' then (k', v) :: rest
      else (k', v') :: dict_set rest k v
  end.

(** [f"{v}"].  The writing of a list or of a dictionary is left to
    [repr], a parameter. *)
Definition py_format (repr : json -> str) (v : json) : str :=
  match v with
  | JNull => lit "None"
  | JBool true => lit "True"
  | JBool false => lit "False"
  | JNum n => str_of_int n
  | JStr s => s
  | JList _ | JDict _ => repr v
  end.

(** The dictionary of lines 133-137, fields evaluated in order. *)
Definition page_counts (page_info : json) : option json :=
  match py_get_default page_info (lit "para_blocks") (JList []) with
  | None => None
  | Some blocks =>
      match py_len blocks with
      | None => None
      | Some n_blocks =>
          match py_get_default page_info (lit "images") (JList []) with
          | None => None
          | Some images =>
              match py_len images with
              | None => None
              | Some n_images =>
                  match py_get_default page_info (lit "tables") (JList []) with
                  | None => None
                  | Some tables =>
                      match py_len tables with
                      | None => None
                      | Some n_tables =>
                          Some (JDict
                                  [ (lit "blocks", JNum (Z.of_nat n_blocks));
                                    (lit "images", JNum (Z.of_nat n_images));
                                    (lit "tables", JNum (Z.of_nat n_tables)) ])
                      end
                  end
              end
          end
      end
  end.

(** Lines 131-137, for one [page_info]. *)
Definition page_body (repr : json -> str) (structure : list (str * json))
    (page_info : json) : option (list (str * json)) :=
  match py_contains (lit "page_idx") page_info with
  | None => None
  | Some false => Some structure
  | Some true =>
      match py_getitem page_info (lit "page_idx") with
      | None => None
      | Some page_idx =>
          let page_key := lit "page_" ++ py_format repr page_idx in
          match page_counts page_info with
          | None => None
          | Some counts => Some (dict_set structure page_key counts)
          end
      end
  end.

(** Lines 126-137, for one item of [parse_content['contents']]. *)
Definition file_body (repr : json -> str) (structure : list (str * json))
    (item : str * json) : option (list (str * json)) :=
  let '(file_name, content) := item in
  if endswith file_name (lit ".json") then
    match py_contains (lit "pdf_info") content with
    | None => None
    | Some false => Some structure
    | Some true =>
        match py_getitem content (lit "pdf_info") with
        | None => None
        | Some pdf_info =>
            match py_iter pdf_info with
            | None => None
            | Some pages => for_each (page_body repr) structure pages
            end
        end
    end
  else Some structure.

(** Lines 116 and 120-121. *)
Definition content_types_of (parse_content : json)
  : option (list (str * json)) :=
  let content_types := [(lit "default", JStr (lit "text"))] in
  match py_contains (lit "images") parse_content with
  | None => None
  | Some false => Some content_types
  | Some true =>
      match py_getitem parse_content (lit "images") with
      | None => None
      | Some images =>
          if py_truthy images then
            match py_len images with
            | None => None
            | Some n =>
                Some (dict_set content_types (lit "images")
                        (JNum (Z.of_nat n)))
            end
          else Some content_types
      end
  end.

(** Lines 117 and 124-137. *)
Definition structure_of (repr : json -> str) (parse_content : json)
  : option (list (str * json)) :=
  let structure := [(lit "has_content", JBool true)] in
  match py_contains (lit "contents") parse_content with
  | None => None
  | Some false => Some structure
  | Some true =>
      match py_getitem parse_content (lit "contents") with
      | None => None
      | Some contents =>
          match py_items contents with
          | None => None
          | Some items => for_each (file_body repr) structure items
          end
      end
  end.

(** [extract_structured_info(parse_content)]: the items of the
    dictionary it returns, or [None] where it raises. *)
Definition extract_structured_info (repr : json -> str) (parse_content : json)
  : option (list (str * json)) :=
  match content_types_of parse_content with
  | None => None
  | Some content_types =>
      match structure_of repr parse_content with
      | None => None
      | Some structure =>
          Some ((if 1 <? List.length content_types
                 then [(lit "content_types", JDict content_types)]
                 else [])
                ++ (if 1 <? List.length structure
                    then [(lit "structure", JDict structure)]
                    else []))
      end
  end.

(** An entry of [structure] for a page: a key that starts with [page_]
    and the three counts. *)
Definition page_entry (kv : str * json) : Prop :=
  exists t n_blocks n_images n_tables,
    fst kv = lit "page_" ++ t
    /\ snd kv = JDict [ (lit "blocks", JNum (Z.of_nat n_blocks));
                        (lit "images", JNum (Z.of_nat n_images));
                        (lit "tables", JNum (Z.of_nat n_tables)) ].

(** A parsing result with two images and one page. *)
Definition sample_parse_content : json :=
  JDict
    [ (lit "markdown_text", JStr (lit "# T"));
      (lit "images", JList [JStr (lit "a.png"); JStr (lit "b.png")]);
      (lit "contents",
       JDict
         [ (lit "doc.md", JStr (lit "# T"));
           (lit "doc_middle.json",
            JDict
              [ (lit "pdf_info",
                 JList
                   [ JDict [ (lit "page_idx", JNum 0);
                             (lit "para_blocks", JList [JNull; JNull]) ] ]) ])
         ]) ].







(** ** Facts about the string primitives *)

Section StringFacts.

Lemma glue_length (c : char) (l : list str) :
  List.length (match l with w :: ws => (c :: w) :: ws | [] => [[c]] end)
  = Nat.max 1 (List.length l).
Proof. destruct l; reflexivity. Qed.

Lemma split_ws_head (c : char) (r : str) :
  isspace c = false -> split_ws (c :: r) <> [].
Proof.
  intros Hc. simpl. rewrite Hc.
  destruct r as [|c' r']; [discriminate|].
  destruct (isspace c'); [discriminate|].
  destruct (split_ws (c' :: r')); discriminate.
Qed.

Lemma split_ws_cons2 (c c' : char) (r : str) :
  split_ws (c :: c' :: r)
  = if isspace c then split_ws (c' :: r)
    else if isspace c' then [c] :: split_ws (c' :: r)
    else match split_ws (c' :: r) with
         | w :: ws => (c :: w) :: ws
         | [] => [[c]]
         end.
Proof. reflexivity. Qed.

Lemma split_ws_cons1 (c : char) :
  split_ws [c] = if isspace c then [] else [[c]].
Proof. reflexivity. Qed.

Lemma word_count_app (a b : str) :
  match b with [] => True | c :: _ => isspace c = true end ->
  word_count (a ++ b) = word_count a + word_count b.
Proof.
  unfold word_count. intros Hb.
  induction a as [|c r IH]; [reflexivity|].
  destruct r as [|c' r'].
  - cbn [app]. rewrite split_ws_cons1.
    destruct b as [|d b'].
    + rewrite split_ws_cons1. destruct (isspace c); reflexivity.
    + rewrite split_ws_cons2, Hb. destruct (isspace c); reflexivity.
  - change ((c :: c' :: r') ++ b) with (c :: c' :: (r' ++ b)).
    change ((c' :: r') ++ b) with (c' :: (r' ++ b)) in IH.
    rewrite !split_ws_cons2.
    destruct (isspace c); [exact IH|].
    destruct (isspace c') eqn:Hc'.
    + cbn [List.length]. rewrite IH. reflexivity.
    + rewrite !glue_length, IH.
      pose proof (split_ws_head c' r' Hc') as H2.
      destruct (split_ws (c' :: r')); [congruence|].
      cbn [List.length]. lia.
Qed.

Lemma word_count_with_header (h t : str) :
  word_count (with_header h t) = word_count h + word_count t.
Proof.
  unfold with_header. rewrite word_count_app; [reflexivity|reflexivity].
Qed.

Lemma word_count_all_space (s : str) : all_space s -> word_count s = 0.
Proof.
  unfold all_space, word_count. induction s as [|c r IH]; [reflexivity|].
  cbn [forallb split_ws]. intros H. apply andb_prop in H as [Hc Hr].
  rewrite Hc. auto.
Qed.

Lemma split_blank_nonempty (s : str) : split_blank s <> [].
Proof.
  destruct s as [|c [|c' r']]; cbn; try discriminate.
  destruct ((c =? NL) && (c' =? NL))%N; [discriminate|].
  destruct (match r' with [] => _ | _ => _ end); discriminate.
Qed.

Lemma split_blank_cons2 (c c' : char) (r : str) :
  split_blank (c :: c' :: r)
  = if ((c =? NL) && (c' =? NL))%N then [] :: split_blank r
    else match split_blank (c' :: r) with
         | p :: ps => (c :: p) :: ps
         | [] => [[c]]
         end.
Proof. reflexivity. Qed.

Lemma join_blank_cons (x : str) (l : list str) :
  l <> [] -> join_blank (x :: l) = x ++ [NL; NL] ++ join_blank l.
Proof. destruct l; [congruence|reflexivity]. Qed.

Lemma join_blank_glue (c : char) (l : list str) :
  l <> [] ->
  join_blank (match l with p :: ps => (c :: p) :: ps | [] => [[c]] end)
  = c :: join_blank l.
Proof.
  destruct l as [|p ps]; [congruence|]. intros _.
  destruct ps; reflexivity.
Qed.

(** A recursion scheme that follows [split_blank]: two characters at a
    time when they form a separator, one otherwise. *)
Lemma str_ind2 (P : str -> Prop) :
  P [] ->
  (forall c, P [c]) ->
  (forall c c' r, P r -> P (c' :: r) -> P (c :: c' :: r)) ->
  forall s, P s.
Proof.
  intros H0 H1 H2.
  assert (H : forall s, P s /\ forall c, P (c :: s)).
  { induction s as [|c' r [IHa IHb]]; split; auto. }
  intros s. apply H.
Qed.

(** Joining the paragraphs of a text with blank lines gives the text
    back. *)
Lemma join_split_blank (s : str) : join_blank (split_blank s) = s.
Proof.
  induction s as [|c|c c' r IHr IHc] using str_ind2; try reflexivity.
  rewrite split_blank_cons2.
  destruct ((c =? NL) && (c' =? NL))%N eqn:E.
  - apply andb_prop in E as [Ec Ec'].
    apply N.eqb_eq in Ec, Ec'. subst.
    rewrite join_blank_cons by apply split_blank_nonempty.
    rewrite IHr. reflexivity.
  - rewrite join_blank_glue by apply split_blank_nonempty.
    rewrite IHc. reflexivity.
Qed.

Lemma split_blank_all_space (s : str) :
  all_space s -> Forall all_space (split_blank s).
Proof.
  unfold all_space.
  induction s as [|c|c c' r IHr IHc] using str_ind2; intros H.
  - repeat constructor.
  - repeat constructor. exact H.
  - rewrite split_blank_cons2.
    assert (Hc : isspace c = true) by (cbn in H; apply andb_prop in H; tauto).
    assert (Hr : forallb isspace (c' :: r) = true)
      by (cbn in H; apply andb_prop in H; tauto).
    assert (Hr' : forallb isspace r = true)
      by (cbn in Hr; apply andb_prop in Hr; tauto).
    destruct ((c =? NL) && (c' =? NL))%N.
    + constructor; [reflexivity|auto].
    + specialize (IHc Hr).
      destruct (split_blank (c' :: r)) as [|p ps].
      * repeat constructor. cbn. rewrite Hc. reflexivity.
      * inversion IHc; subst. constructor; [|assumption].
        cbn. rewrite Hc. assumption.
Qed.

Lemma join_blank_all_space (l : list str) :
  Forall all_space l -> all_space (join_blank l).
Proof.
  unfold all_space. induction 1 as [|x l Hx Hl IH]; [reflexivity|].
  destruct l as [|y l']; [exact Hx|].
  rewrite join_blank_cons by discriminate.
  rewrite !forallb_app, Hx, IH. reflexivity.
Qed.

Lemma join_blank_snoc (l : list str) (x : str) :
  l <> [] -> join_blank (l ++ [x]) = join_blank l ++ [NL; NL] ++ x.
Proof.
  induction l as [|y l IH]; [congruence|]. intros _.
  destruct l as [|z l'].
  - reflexivity.
  - change ((y :: z :: l') ++ [x]) with (y :: ((z :: l') ++ [x])).
    rewrite join_blank_cons by (destruct l'; discriminate).
    rewrite IH by discriminate.
    rewrite (join_blank_cons y (z :: l')) by discriminate.
    rewrite <- !app_assoc. reflexivity.
Qed.

(** A member of a list is a whole segment of the joined text, between
    separators or the ends of the text. *)
Lemma join_blank_member (l : list str) (x : str) :
  In x l ->
  exists pre post,
    join_blank l = pre ++ x ++ post
    /\ ends_with_blank pre /\ starts_with_blank post.
Proof.
  unfold ends_with_blank, starts_with_blank.
  induction l as [|y l IH]; [contradiction|].
  intros [->|Hin].
  - destruct l as [|z l'].
    + exists [], []. rewrite app_nil_r. auto.
    + exists [], ([NL; NL] ++ join_blank (z :: l')).
      rewrite join_blank_cons by discriminate.
      split; [reflexivity|]. split; [now left|right; eauto].
  - destruct l as [|z l']; [contradiction|].
    destruct (IH Hin) as (pre & post & E & Hpre & Hpost).
    exists (y ++ [NL; NL] ++ pre), post.
    rewrite join_blank_cons by discriminate. rewrite E.
    split; [now rewrite <- !app_assoc|]. split; [|exact Hpost].
    right. destruct Hpre as [->|[pre' ->]].
    + exists y. now rewrite app_nil_r.
    + exists (y ++ [NL; NL] ++ pre'). now rewrite <- !app_assoc.
Qed.

End StringFacts.

(** ** Facts about the patterns *)

Section PatternFacts.

Lemma greedy_some {A : Type} (lo n : nat) (k : nat -> option A) (x : A) :
  greedy lo n k = Some x -> exists m, lo <= m <= n /\ k m = Some x.
Proof.
  induction n as [|n IH]; cbn [greedy].
  - destruct (0 <? lo) eqn:E; [discriminate|].
    apply Nat.ltb_ge in E. destruct (k 0) eqn:K; [|discriminate].
    intros [= ->]. exists 0. split; [lia|assumption].
  - destruct (S n <? lo) eqn:E; [discriminate|].
    apply Nat.ltb_ge in E. destruct (k (S n)) eqn:K.
    + intros [= ->]. exists (S n). split; [lia|assumption].
    + intros H. destruct (IH H) as (m & Hm & Km).
      exists m. split; [lia|assumption].
Qed.

Lemma greedy_top {A : Type} (lo n : nat) (k : nat -> option A) (x : A) :
  lo <= n -> k n = Some x -> greedy lo n k = Some x.
Proof.
  intros Hle K. destruct n; cbn [greedy].
  - replace (0 <? lo) with false by (symmetry; apply Nat.ltb_ge; lia).
    now rewrite K.
  - replace (S n <? lo) with false by (symmetry; apply Nat.ltb_ge; lia).
    now rewrite K.
Qed.

Lemma count_prefix_le (p : char -> bool) (s : str) :
  count_prefix p s <= List.length s.
Proof. induction s as [|c r IH]; cbn; [lia|]. destruct (p c); cbn; lia. Qed.

(** Right after the longest prefix comes the end of the string or a
    character outside the class. *)
Lemma count_prefix_stop (p : char -> bool) (s : str) :
  match skipn (count_prefix p s) s with
  | [] => True
  | c :: _ => p c = false
  end.
Proof.
  induction s as [|c r IH]; cbn; [exact I|].
  destruct (p c) eqn:E; cbn; assumption.
Qed.

(** Inside the longest prefix every character is in the class. *)
Lemma count_prefix_inside (p : char -> bool) (s : str) (n : nat) :
  n < count_prefix p s -> exists c r, skipn n s = c :: r /\ p c = true.
Proof.
  revert n. induction s as [|c r IH]; cbn; intros n Hn; [lia|].
  destruct (p c) eqn:E; [|lia].
  destruct n as [|n]; cbn; [eauto|]. apply IH. lia.
Qed.

Lemma count_prefix_full (p : char -> bool) (s : str) :
  count_prefix p s = List.length s -> forallb p s = true.
Proof.
  induction s as [|c r IH]; cbn; [reflexivity|].
  destruct (p c); [|discriminate]. intros [= H]. auto.
Qed.

Lemma count_prefix_pos (p : char -> bool) (s : str) :
  1 <= count_prefix p s -> exists c r, s = c :: r /\ p c = true.
Proof.
  intros H. destruct (count_prefix_inside p s 0 H) as (c & r & E & Hc).
  exists c, r. split; assumption.
Qed.

Lemma lstrip_head (s : str) :
  match lstrip s with
  | [] => True
  | c :: _ => isspace c = false
  end.
Proof.
  induction s as [|c r IH]; cbn; [exact I|].
  destruct (isspace c) eqn:E; [exact IH|exact E].
Qed.

Lemma strip_stripped (s : str) : stripped (strip s).
Proof.
  unfold stripped, strip, rstrip. intros l c E.
  apply (f_equal (@rev char)) in E.
  rewrite rev_involutive, rev_app_distr in E. cbn in E.
  pose proof (lstrip_head (rev (lstrip s))) as H.
  rewrite E in H. exact H.
Qed.

Lemma stripped_skipn (s : str) (n : nat) : stripped s -> stripped (skipn n s).
Proof.
  unfold stripped. intros H l c E. apply (H (firstn n s ++ l) c).
  rewrite <- app_assoc, <- E. symmetry. apply firstn_skipn.
Qed.

(** In a string that does not end with whitespace, a run of whitespace is
    followed by a character that is not whitespace. *)
Lemma stripped_after_blanks (s : str) :
  stripped s -> s <> [] ->
  exists d r, skipn (count_prefix isspace s) s = d :: r /\ isspace d = false.
Proof.
  intros Hs Hne.
  pose proof (count_prefix_stop isspace s) as Hstop.
  destruct (skipn (count_prefix isspace s) s) as [|d r] eqn:E; [|eauto].
  exfalso.
  assert (Hfull : count_prefix isspace s = List.length s).
  { apply (f_equal (@List.length char)) in E. rewrite length_skipn in E.
    cbn in E. pose proof (count_prefix_le isspace s). lia. }
  apply count_prefix_full in Hfull.
  destruct (exists_last Hne) as (l & c & ->).
  rewrite forallb_app in Hfull. cbn in Hfull.
  rewrite (Hs l c eq_refl) in Hfull.
  rewrite andb_false_r in Hfull. discriminate.
Qed.

Lemma isspace_not_newline (d : char) : isspace d = false -> not_newline d = true.
Proof.
  unfold not_newline. destruct (N.eqb_spec d NL) as [->|]; [|reflexivity].
  discriminate.
Qed.

Lemma isspace_not_hash (c : char) : isspace c = true -> is_hash c = false.
Proof.
  unfold is_hash. destruct (N.eqb_spec c 35) as [->|]; [|reflexivity].
  discriminate.
Qed.

(** The pattern can only match with all the leading [#] characters in
    group 1. *)
Lemma header_pattern_match_level (s g1 g2 : str) :
  header_pattern_match s = Some (g1, g2) ->
  List.length g1 = count_prefix is_hash s
  /\ 1 <= count_prefix is_hash s <= 6
  /\ exists c r, skipn (count_prefix is_hash s) s = c :: r /\ isspace c = true.
Proof.
  unfold header_pattern_match. intros H.
  apply greedy_some in H as (a & Ha & H).
  apply greedy_some in H as (b & Hb & H).
  apply greedy_some in H as (c & Hc & H).
  destruct (at_line_end _); [|discriminate]. injection H as <- <-.
  destruct (count_prefix_pos isspace (skipn a s)) as (d & r & E & Hd); [lia|].
  assert (Heq : a = count_prefix is_hash s).
  { destruct (Nat.eq_dec a (count_prefix is_hash s)) as [|Hneq]; [assumption|].
    destruct (count_prefix_inside is_hash s a) as (d' & r' & E' & Hd'); [lia|].
    rewrite E in E'. injection E' as -> ->.
    rewrite (isspace_not_hash _ Hd) in Hd'. discriminate. }
  subst a. split; [|split].
  - rewrite length_firstn. pose proof (count_prefix_le is_hash s). lia.
  - lia.
  - eauto.
Qed.

Lemma header_start_matches (s : str) :
  stripped s -> header_start s = true ->
  exists g2, header_pattern_match s
             = Some (firstn (count_prefix is_hash s) s, g2).
Proof.
  unfold header_start. intros Hs H.
  apply andb_prop in H as [H H3]. apply andb_prop in H as [H1 H2].
  apply Nat.leb_le in H1, H2.
  set (a := count_prefix is_hash s) in *.
  destruct (skipn a s) as [|c r] eqn:E; [discriminate|].
  assert (Hr1 : stripped (skipn a s)) by (apply stripped_skipn; exact Hs).
  destruct (stripped_after_blanks (skipn a s) Hr1) as (d & r2 & E2 & Hd).
  { rewrite E. discriminate. }
  set (b := count_prefix isspace (skipn a s)) in *.
  assert (Hb : 1 <= b) by (subst b; rewrite E; cbn; rewrite H3; lia).
  set (m := count_prefix not_newline (skipn b (skipn a s))).
  assert (Hm : 1 <= m).
  { subst m. rewrite E2. cbn. rewrite (isspace_not_newline d Hd). lia. }
  exists (firstn m (skipn b (skipn a s))).
  unfold header_pattern_match. fold a.
  apply greedy_top; [lia|]. replace (Nat.min 6 a) with a by lia.
  fold b. apply greedy_top; [lia|]. fold m.
  apply greedy_top; [assumption|].
  pose proof (count_prefix_stop not_newline (skipn b (skipn a s))) as Hstop.
  fold m in Hstop. unfold at_line_end.
  destruct (skipn m (skipn b (skipn a s))) as [|e r3]; [reflexivity|].
  unfold not_newline in Hstop. apply negb_false_iff in Hstop.
  rewrite Hstop. reflexivity.
Qed.

(** The header branch is taken exactly for a trimmed paragraph that
    starts with 1 to 6 [#] characters and a whitespace character. *)
Lemma is_header_start (paragraph : str) :
  is_header paragraph = header_start (strip paragraph).
Proof.
  unfold is_header.
  destruct (header_start (strip paragraph)) eqn:E.
  - destruct (header_start_matches (strip paragraph)) as (g2 & ->);
      [apply strip_stripped|assumption|reflexivity].
  - destruct (header_pattern_match (strip paragraph)) as [[g1 g2]|] eqn:M;
      [|reflexivity].
    apply header_pattern_match_level in M as (_ & Hlvl & c & r & Er & Hc).
    unfold header_start in E. rewrite Er, Hc in E.
    replace (1 <=? _) with true in E by (symmetry; apply Nat.leb_le; lia).
    replace (_ <=? 6) with true in E by (symmetry; apply Nat.leb_le; lia).
    discriminate.
Qed.

Lemma strip_all_space (s : str) : all_space s -> strip s = [].
Proof.
  unfold all_space, strip, rstrip. intros H.
  assert (L : lstrip s = []).
  { induction s as [|c r IH]; [reflexivity|]. cbn in *.
    apply andb_prop in H as [Hc Hr]. rewrite Hc. auto. }
  rewrite L. reflexivity.
Qed.

Lemma strip_prefix_all_space (a : char) (l s : str) :
  isspace a = false -> all_space s -> strip_prefix (a :: l) s = None.
Proof.
  unfold all_space. intros Ha Hs. destruct s as [|c r]; [reflexivity|].
  cbn in *. apply andb_prop in Hs as [Hc _].
  destruct (N.eqb_spec a c) as [->|]; [congruence|reflexivity].
Qed.

Lemma search_all_space (m : str -> bool) (s : str) :
  (forall t, all_space t -> m t = false) -> all_space s -> search m s = false.
Proof.
  unfold all_space. intros Hm. induction s as [|c r IH]; intros Hs.
  - cbn. rewrite Hm by reflexivity. reflexivity.
  - cbn [search]. rewrite Hm by exact Hs. cbn in Hs.
    apply andb_prop in Hs as [_ Hr]. cbn. auto.
Qed.

(** A paragraph of whitespace is neither a header nor a table nor an
    image. *)
Lemma all_space_plain (s : str) :
  all_space s ->
  header_pattern_match (strip s) = None
  /\ table_pattern_search s = false /\ image_pattern_search s = false.
Proof.
  intros Hs. split; [|split].
  - rewrite strip_all_space by assumption. reflexivity.
  - apply search_all_space; [|assumption]. intros t Ht.
    unfold table_alt_html, table_alt_bare.
    change (lit "<html>") with (60%N :: lit "html>").
    change (lit "<table>") with (60%N :: lit "table>").
    rewrite !strip_prefix_all_space by (assumption || reflexivity).
    reflexivity.
  - apply search_all_space; [|assumption]. intros t Ht.
    unfold image_at. change (lit "![") with (33%N :: lit "[").
    rewrite strip_prefix_all_space by (assumption || reflexivity).
    reflexivity.
Qed.

End PatternFacts.

(** ** The ghost trace and the chunker agree *)

Section Erasure.

Variable config : ChunkingConfig.
Variable doc_idx : nat.

Lemma truthy_map {A B : Type} (f : A -> B) (l : list A) :
  truthy (map f l) = truthy l.
Proof. destruct l; reflexivity. Qed.

Lemma loop_body_erase (ts : Trace.tstate) (para_idx : nat) (paragraph : str) :
  loop_body config doc_idx (Trace.erase ts) paragraph
  = (Trace.erase (fst (Trace.loop_body config ts para_idx paragraph)),
     map (Trace.render doc_idx)
         (snd (Trace.loop_body config ts para_idx paragraph))).
Proof.
  unfold loop_body, Trace.loop_body.
  destruct (header_pattern_match (strip paragraph)) as [[g1 g2]|].
  - cbn [Trace.erase current_chunk current_header_level current_header].
    rewrite truthy_map.
    destruct (truthy (Trace.t_chunk ts)
              && ((List.length g1 <=? Trace.t_header_level ts)
                  || (Trace.t_header_level ts =? 0))); [|reflexivity].
    cbn. unfold Trace.render, Trace.body. cbn.
    destruct (truthy (Trace.t_header ts)); reflexivity.
  - cbn [Trace.erase current_chunk current_header_level current_header].
    rewrite truthy_map.
    destruct (table_pattern_search paragraph || image_pattern_search paragraph);
      cbn [andb].
    + destruct (negb (truthy (Trace.t_chunk ts)) && truthy (Trace.t_header ts));
        cbn [Trace.header_item Trace.txt map app];
        rewrite ?map_app; cbn [map Trace.txt];
        match goal with |- context [Z.ltb ?a ?b] => destruct (Z.ltb a b) end;
        cbn; unfold Trace.erase, Trace.render, Trace.body; cbn;
        rewrite ?map_app; reflexivity.
    + rewrite map_app. cbn [map Trace.txt].
      match goal with |- context [Z.ltb ?a ?b] => destruct (Z.ltb a b) end;
        cbn; unfold Trace.erase, Trace.render, Trace.body; cbn;
        rewrite ?map_app; reflexivity.
Qed.

Lemma for_paragraphs_erase (paragraphs : list str) :
  forall (ts : Trace.tstate) (para_idx : nat),
    for_paragraphs config doc_idx (Trace.erase ts) paragraphs
    = (Trace.erase (fst (Trace.for_paragraphs config ts para_idx paragraphs)),
       map (Trace.render doc_idx)
           (snd (Trace.for_paragraphs config ts para_idx paragraphs))).
Proof.
  induction paragraphs as [|p rest IH]; intros ts i; [reflexivity|].
  cbn [for_paragraphs Trace.for_paragraphs].
  rewrite (loop_body_erase ts i p).
  destruct (Trace.loop_body config ts i p) as [ts1 y1]. cbn [fst snd].
  rewrite (IH ts1 (S i)).
  destruct (Trace.for_paragraphs config ts1 (S i) rest) as [ts2 y2].
  cbn [fst snd]. rewrite map_app. reflexivity.
Qed.

Lemma last_chunk_erase (ts : Trace.tstate) :
  last_chunk doc_idx (Trace.erase ts)
  = map (Trace.render doc_idx) (Trace.last_chunk ts).
Proof.
  unfold last_chunk, Trace.last_chunk.
  cbn [Trace.erase current_chunk current_header]. rewrite truthy_map.
  destruct (truthy (Trace.t_chunk ts)); [|reflexivity].
  cbn. unfold Trace.render, Trace.body. cbn.
  destruct (truthy (Trace.t_header ts)
            && negb (mem (Trace.t_header ts) (map Trace.txt (Trace.t_chunk ts))));
    reflexivity.
Qed.

Lemma document_chunks_trace (text : str) :
  document_chunks config doc_idx text
  = map (Trace.render doc_idx) (Trace.document_trace config text).
Proof.
  unfold document_chunks, Trace.document_trace.
  change initial_state with (Trace.erase Trace.initial_tstate).
  rewrite (for_paragraphs_erase (split_blank text) Trace.initial_tstate 0).
  destruct (Trace.for_paragraphs config Trace.initial_tstate 0 (split_blank text))
    as [ts y]. cbn [fst snd].
  rewrite map_app, last_chunk_erase. reflexivity.
Qed.

Lemma yielded_chunks_app (a b : list event) :
  yielded_chunks (a ++ b) = yielded_chunks a ++ yielded_chunks b.
Proof.
  induction a as [|[c|n] a IH]; cbn; [reflexivity| |assumption].
  now rewrite IH.
Qed.

Lemma yielded_chunks_map (l : list TextChunk) :
  yielded_chunks (map Yield l) = l.
Proof. induction l as [|c l IH]; cbn; [reflexivity|now rewrite IH]. Qed.

Lemma run_document_chunks (text : str) :
  yielded_chunks (run_document config doc_idx text)
  = map (Trace.render doc_idx) (run_document_trace config text).
Proof.
  unfold run_document, run_document_trace.
  destruct (negb (truthy text)); [reflexivity|].
  rewrite yielded_chunks_app, yielded_chunks_map, document_chunks_trace.
  cbn. apply app_nil_r.
Qed.

End Erasure.

(** ** What the trace holds *)

Section TraceFacts.

Variable config : ChunkingConfig.

Lemma non_headers_cons (start : nat) (p : str) (rest : list str) :
  non_headers start (p :: rest)
  = (if is_header p then [] else [(start, p)]) ++ non_headers (S start) rest.
Proof.
  unfold non_headers, enumerate. cbn. destruct (is_header p); reflexivity.
Qed.

Lemma loop_body_appended (ts : Trace.tstate) (i : nat) (p : str) :
  List.concat (map Trace.appended (snd (Trace.loop_body config ts i p)))
  ++ Trace.pending (fst (Trace.loop_body config ts i p))
  = Trace.pending ts ++ (if is_header p then [] else [(i, p)]).
Proof.
  unfold Trace.loop_body, is_header, Trace.pending, Trace.appended.
  destruct (header_pattern_match (strip p)) as [[g1 g2]|]; cbn [is_some].
  - destruct (truthy (Trace.t_chunk ts) && _); cbn;
      rewrite ?app_nil_r; reflexivity.
  - destruct ((table_pattern_search p || image_pattern_search p)
              && negb (truthy (Trace.t_chunk ts))
              && truthy (Trace.t_header ts)) eqn:Seed.
    + apply andb_prop in Seed as [Seed _]. apply andb_prop in Seed as [_ Seed].
      destruct (Trace.t_chunk ts); [|discriminate].
      match goal with |- context [Z.ltb ?a ?b] => destruct (Z.ltb a b) end;
        reflexivity.
    + match goal with |- context [Z.ltb ?a ?b] => destruct (Z.ltb a b) end;
        cbn [fst snd map List.concat Trace.t_chunk Trace.items];
        rewrite filter_app, map_app, ?app_nil_r; reflexivity.
Qed.

Lemma for_paragraphs_appended (paragraphs : list str) :
  forall (ts : Trace.tstate) (i : nat),
    List.concat (map Trace.appended
                (snd (Trace.for_paragraphs config ts i paragraphs)))
    ++ Trace.pending (fst (Trace.for_paragraphs config ts i paragraphs))
    = Trace.pending ts ++ non_headers i paragraphs.
Proof.
  induction paragraphs as [|p rest IH]; intros ts i.
  - cbn. unfold non_headers. cbn. symmetry. apply app_nil_r.
  - cbn [Trace.for_paragraphs]. rewrite non_headers_cons.
    pose proof (loop_body_appended ts i p) as H1.
    destruct (Trace.loop_body config ts i p) as [ts1 y1]. cbn [fst snd] in H1.
    pose proof (IH ts1 (S i)) as H2.
    destruct (Trace.for_paragraphs config ts1 (S i) rest) as [ts2 y2].
    cbn [fst snd] in *.
    rewrite map_app, concat_app, <- app_assoc, H2, !app_assoc, H1.
    reflexivity.
Qed.

Lemma last_chunk_appended (ts : Trace.tstate) :
  List.concat (map Trace.appended (Trace.last_chunk ts)) = Trace.pending ts.
Proof.
  unfold Trace.last_chunk, Trace.pending, Trace.appended.
  destruct (Trace.t_chunk ts); cbn; [reflexivity|].
  rewrite app_nil_r. reflexivity.
Qed.

(** Every paragraph that does not take the header branch is held by the
    records, once, and in the order of the document. *)
Lemma document_trace_appended (text : str) :
  List.concat (map Trace.appended (Trace.document_trace config text))
  = non_headers 0 (split_blank text).
Proof.
  unfold Trace.document_trace.
  pose proof (for_paragraphs_appended (split_blank text)
                Trace.initial_tstate 0) as H.
  destruct (Trace.for_paragraphs config Trace.initial_tstate 0
              (split_blank text)) as [ts y]. cbn [fst snd] in H.
  rewrite map_app, concat_app, last_chunk_appended. exact H.
Qed.

Lemma run_document_trace_appended (text : str) :
  List.concat (map Trace.appended (run_document_trace config text))
  = appended_paragraphs text.
Proof.
  unfold run_document_trace, appended_paragraphs.
  destruct (negb (truthy text)); [reflexivity|].
  apply document_trace_appended.
Qed.

End TraceFacts.

Lemma render_tokens (doc_idx : nat) (f : Trace.flushed) :
  n_tokens (Trace.render doc_idx f)
  = word_count (Trace.prefix_text f) + word_count (Trace.body f).
Proof.
  unfold Trace.render, Trace.prefix_text. cbn [n_tokens].
  destruct (Trace.prefix f); [apply word_count_with_header|reflexivity].
Qed.

(** ** Whole runs *)

Section Runs.

Variable config : ChunkingConfig.

Lemma run_from_chunks (input : list str) :
  forall doc_idx,
    yielded_chunks (run_from config doc_idx input)
    = map render_at (run_from_trace config doc_idx input).
Proof.
  induction input as [|text rest IH]; intros d; [reflexivity|].
  cbn [run_from run_from_trace].
  rewrite yielded_chunks_app, map_app, IH, run_document_chunks, map_map.
  reflexivity.
Qed.

Lemma tick_calls_app (a b : list event) :
  tick_calls (a ++ b) = tick_calls a + tick_calls b.
Proof. unfold tick_calls. rewrite filter_app. apply length_app. Qed.

Lemma tick_calls_yields (l : list TextChunk) : tick_calls (map Yield l) = 0.
Proof. induction l as [|c l IH]; [reflexivity|exact IH]. Qed.

Lemma run_document_ticks (doc_idx : nat) (text : str) :
  tick_calls (run_document config doc_idx text) = 1.
Proof.
  unfold run_document. destruct (negb (truthy text)); [reflexivity|].
  rewrite tick_calls_app, tick_calls_yields. reflexivity.
Qed.

(** A document's events are its chunks followed by one [tick(1)]. *)
Lemma run_document_shape (doc_idx : nat) (text : str) :
  run_document config doc_idx text
  = map Yield (yielded_chunks (run_document config doc_idx text)) ++ [Tick 1].
Proof.
  unfold run_document. destruct (negb (truthy text)); [reflexivity|].
  rewrite yielded_chunks_app, yielded_chunks_map. cbn [yielded_chunks].
  rewrite app_nil_r. reflexivity.
Qed.

(** *** Token estimates *)

Lemma loop_body_tokens (doc_idx : nat) (st : state) (p : str) :
  Forall tokens_fresh (snd (loop_body config doc_idx st p)).
Proof.
  unfold loop_body.
  destruct (header_pattern_match (strip p)) as [[g1 g2]|].
  - destruct (truthy (current_chunk st) && _); cbn [snd];
      repeat constructor.
  - destruct (table_pattern_search p || image_pattern_search p).
    + destruct (negb (truthy (current_chunk st)) && truthy (current_header st));
        match goal with |- context [Z.ltb ?a ?b] => destruct (Z.ltb a b) end;
        cbn [snd]; repeat constructor.
    + match goal with |- context [Z.ltb ?a ?b] => destruct (Z.ltb a b) end;
        cbn [snd]; repeat constructor.
Qed.

Lemma for_paragraphs_tokens (doc_idx : nat) (paragraphs : list str) :
  forall st, Forall tokens_fresh
                    (snd (for_paragraphs config doc_idx st paragraphs)).
Proof.
  induction paragraphs as [|p rest IH]; intros st; [constructor|].
  cbn [for_paragraphs].
  pose proof (loop_body_tokens doc_idx st p) as H1.
  destruct (loop_body config doc_idx st p) as [st1 y1].
  pose proof (IH st1) as H2.
  destruct (for_paragraphs config doc_idx st1 rest) as [st2 y2].
  cbn [snd] in *. apply Forall_app. split; assumption.
Qed.

Lemma last_chunk_tokens (doc_idx : nat) (st : state) :
  Forall tokens_fresh (last_chunk doc_idx st).
Proof.
  unfold last_chunk. destruct (truthy (current_chunk st)); repeat constructor.
Qed.

Lemma run_document_tokens (doc_idx : nat) (text : str) :
  Forall tokens_fresh (yielded_chunks (run_document config doc_idx text)).
Proof.
  unfold run_document. destruct (negb (truthy text)); [constructor|].
  rewrite yielded_chunks_app, yielded_chunks_map. cbn [yielded_chunks].
  rewrite app_nil_r. unfold document_chunks.
  pose proof (for_paragraphs_tokens doc_idx (split_blank text) initial_state)
    as H.
  destruct (for_paragraphs config doc_idx initial_state (split_blank text))
    as [st y]. cbn [snd] in H.
  apply Forall_app. split; [exact H|apply last_chunk_tokens].
Qed.

Lemma run_from_tokens (input : list str) :
  forall doc_idx,
    Forall tokens_fresh (yielded_chunks (run_from config doc_idx input)).
Proof.
  induction input as [|text rest IH]; intros d; [constructor|].
  cbn [run_from]. rewrite yielded_chunks_app. apply Forall_app.
  split; [apply run_document_tokens|apply IH].
Qed.

Lemma run_from_ticks (input : list str) :
  forall doc_idx,
    tick_calls (run_from config doc_idx input) = List.length input.
Proof.
  induction input as [|text rest IH]; intros d; [reflexivity|].
  cbn [run_from List.length].
  rewrite tick_calls_app, run_document_ticks, IH. reflexivity.
Qed.

Lemma run_from_shape (input : list str) :
  forall doc_idx,
    run_from config doc_idx input
    = List.concat
        (map (fun dt =>
                map Yield
                    (yielded_chunks (run_document config (fst dt) (snd dt)))
                ++ [Tick 1])
             (enumerate doc_idx input)).
Proof.
  induction input as [|text rest IH]; intros d; [reflexivity|].
  cbn [run_from]. unfold enumerate in *.
  cbn [List.length seq combine map List.concat fst snd].
  rewrite <- IH, <- run_document_shape. reflexivity.
Qed.

(** *** Documents of whitespace *)

Lemma for_paragraphs_all_space (doc_idx : nat) (paragraphs : list str) :
  (0 <= size config)%Z ->
  Forall all_space paragraphs ->
  forall pending,
    Forall all_space pending ->
    for_paragraphs config doc_idx
      {| current_chunk := pending; current_header_level := 0;
         current_header := [] |} paragraphs
    = ({| current_chunk := pending ++ paragraphs; current_header_level := 0;
          current_header := [] |}, []).
Proof.
  intros Hs. induction 1 as [|p rest Hp Hrest IH]; intros pending Hpend.
  - cbn. rewrite app_nil_r. reflexivity.
  - cbn [for_paragraphs]. unfold loop_body.
    destruct (all_space_plain p Hp) as (-> & -> & ->).
    cbn [orb current_chunk current_header current_header_level].
    assert (Hall : Forall all_space (pending ++ [p])).
    { apply Forall_app. split; [assumption|repeat constructor; assumption]. }
    rewrite (word_count_all_space _ (join_blank_all_space _ Hall)).
    replace (size config <? Z.of_nat 0)%Z with false
      by (symmetry; apply Z.ltb_ge; cbn; lia).
    rewrite (IH (pending ++ [p]) Hall), <- app_assoc. reflexivity.
Qed.

End Runs.

(** The chunker reads nothing of the configuration but [size]. *)
Lemma loop_body_size_only (c1 c2 : ChunkingConfig) (doc_idx : nat)
    (st : state) (p : str) :
  size c1 = size c2 -> loop_body c1 doc_idx st p = loop_body c2 doc_idx st p.
Proof. intros H. unfold loop_body. rewrite H. reflexivity. Qed.

Lemma for_paragraphs_size_only (c1 c2 : ChunkingConfig) (doc_idx : nat)
    (paragraphs : list str) :
  size c1 = size c2 ->
  forall st, for_paragraphs c1 doc_idx st paragraphs
             = for_paragraphs c2 doc_idx st paragraphs.
Proof.
  intros H. induction paragraphs as [|p rest IH]; intros st; [reflexivity|].
  cbn [for_paragraphs]. rewrite (loop_body_size_only c1 c2 doc_idx st p H).
  destruct (loop_body c2 doc_idx st p) as [st1 y1]. rewrite IH. reflexivity.
Qed.

Lemma run_from_size_only (c1 c2 : ChunkingConfig) (input : list str) :
  size c1 = size c2 ->
  forall doc_idx, run_from c1 doc_idx input = run_from c2 doc_idx input.
Proof.
  intros H. induction input as [|text rest IH]; intros d; [reflexivity|].
  cbn [run_from]. rewrite IH. f_equal.
  unfold run_document, document_chunks.
  rewrite (for_paragraphs_size_only c1 c2 d (split_blank text) H).
  reflexivity.
Qed.

(** ** Positions of paragraphs *)

Section Positions.

Lemma non_headers_in (paragraphs : list str) :
  forall (start i : nat) (p : str),
    nth_error paragraphs i = Some p ->
    is_header p = false ->
    In (start + i, p) (non_headers start paragraphs).
Proof.
  induction paragraphs as [|q rest IH]; intros start i p Hnth Hp.
  - destruct i; discriminate.
  - rewrite non_headers_cons. apply in_or_app. destruct i as [|i].
    + injection Hnth as ->. rewrite Hp, Nat.add_0_r. left. now left.
    + right. replace (start + S i) with (S start + i) by lia.
      apply IH; assumption.
Qed.

Lemma non_headers_ge (paragraphs : list str) :
  forall (start k : nat),
    In k (map fst (non_headers start paragraphs)) -> start <= k.
Proof.
  induction paragraphs as [|q rest IH]; intros start k Hin.
  - contradiction.
  - rewrite non_headers_cons, map_app in Hin.
    apply in_app_or in Hin as [Hin|Hin].
    + destruct (is_header q); [contradiction|].
      destruct Hin as [<-|[]]. cbn. lia.
    + apply IH in Hin. lia.
Qed.

Lemma non_headers_nodup (paragraphs : list str) :
  forall start, NoDup (map fst (non_headers start paragraphs)).
Proof.
  induction paragraphs as [|q rest IH]; intros start.
  - constructor.
  - rewrite non_headers_cons, map_app. destruct (is_header q); cbn.
    + apply IH.
    + constructor; [|apply IH].
      intros Hin. apply non_headers_ge in Hin. lia.
Qed.

Lemma nodup_app_disjoint {A : Type} (l1 l2 : list A) (x : A) :
  NoDup (l1 ++ l2) -> In x l1 -> In x l2 -> False.
Proof.
  induction l1 as [|a l1 IH]; cbn; intros Hnd H1 H2; [contradiction|].
  inversion Hnd as [|? ? Hnotin Hnd']; subst.
  destruct H1 as [->|H1].
  - apply Hnotin, in_or_app. now right.
  - eauto.
Qed.

(** In a concatenation without repetition, an element belongs to one
    segment only. *)
Lemma concat_unique {A : Type} (L : list (list A)) (x : A) :
  NoDup (List.concat L) ->
  forall j j' a b,
    nth_error L j = Some a -> nth_error L j' = Some b ->
    In x a -> In x b -> j = j'.
Proof.
  induction L as [|l L IH]; intros Hnd j j' a b Ha Hb Hxa Hxb.
  - destruct j; discriminate.
  - cbn in Hnd.
    assert (Hnd' : NoDup (List.concat L)) by (eapply NoDup_app_remove_l; eauto).
    assert (Hin : forall k c, nth_error L k = Some c -> In x c ->
                              In x (List.concat L)).
    { intros k c Hk Hc. apply in_concat. exists c.
      split; [eapply nth_error_In; eauto|assumption]. }
    destruct j as [|j], j' as [|j']; cbn in Ha, Hb.
    + reflexivity.
    + injection Ha as ->. exfalso.
      eapply nodup_app_disjoint; eauto.
    + injection Hb as ->. exfalso.
      eapply nodup_app_disjoint; eauto.
    + f_equal. eapply IH; eauto.
Qed.

Lemma appended_member (f : Trace.flushed) (i : nat) (p : str) :
  In (i, p) (Trace.appended f) -> In p (map Trace.txt (Trace.items f)).
Proof.
  unfold Trace.appended. intros H.
  apply in_map_iff in H as (it & E & Hit). injection E as _ <-.
  apply filter_In in Hit as [Hit _]. now apply in_map.
Qed.

(** The text of a chunk holds each entry of its record whole. *)
Lemma render_member (doc_idx : nat) (f : Trace.flushed) (p : str) :
  In p (map Trace.txt (Trace.items f)) ->
  exists pre post,
    text_chunk (Trace.render doc_idx f) = pre ++ p ++ post
    /\ ends_with_blank pre /\ starts_with_blank post.
Proof.
  intros Hin.
  destruct (join_blank_member _ _ Hin) as (pre & post & E & Hpre & Hpost).
  unfold Trace.render, Trace.body. cbn [text_chunk].
  destruct (Trace.prefix f) as [h|].
  - exists (Trace.txt h ++ [NL; NL] ++ pre), post.
    unfold with_header. rewrite E. split; [now rewrite <- !app_assoc|].
    split; [|exact Hpost]. right.
    destruct Hpre as [->|[pre' ->]].
    + exists (Trace.txt h). now rewrite app_nil_r.
    + exists (Trace.txt h ++ [NL; NL] ++ pre'). now rewrite <- !app_assoc.
  - exists pre, post. auto.
Qed.

End Positions.

(** ** The claims *)

(** C1.  On the document ["# Title\n\nAlpha beta.\n\nGamma delta epsilon
    zeta."] with [size = 3] the run yields exactly one chunk, of 6 tokens,
    and ticks once; the text of that chunk is the two plain paragraphs
    joined by a blank line, without the header paragraph in front: the
    yield of the size check (line 133) does not put [current_header]
    before the text, as the yields of lines 71 and 150 do. *)
Theorem scenario_chunk_lacks_header (o : Z) :
  run_markdown [scenario] {| size := 3; overlap := o |}
  = [ Yield {| text_chunk := two_paragraphs;
               source_doc_indices := [0];
               n_tokens := 6 |};
      Tick 1 ]
  /\ two_paragraphs <> scenario
  /\ scenario = with_header (lit "# Title") two_paragraphs.
Proof.
  split; [reflexivity|]. split; [discriminate|reflexivity].
Qed.

(** C2, as stated, fails: with [size = 3] the run on the C1 document
    yields a chunk of 6 tokens none of whose paragraphs holds a table or
    an image. *)
Lemma size_bound_counterexample :
  ~ (forall (input : list str) (config : ChunkingConfig) (c : TextChunk),
        (0 < size config)%Z ->
        In (Yield c) (run_markdown input config) ->
        (forall p, In p (split_blank (text_chunk c)) ->
                   is_table_or_image p = true ->
                   (Z.of_nat (word_count p) <= size config)%Z) ->
        (Z.of_nat (n_tokens c) <= size config)%Z).
Proof.
  intros H.
  specialize (H [scenario] {| size := 3; overlap := 0 |}
                {| text_chunk := two_paragraphs;
                   source_doc_indices := [0];
                   n_tokens := 6 |}).
  cbn [size n_tokens text_chunk] in H.
  assert (Hle : (Z.of_nat 6 <= 3)%Z).
  { apply H.
    - reflexivity.
    - left. reflexivity.
    - intros p Hp Hti. exfalso.
      destruct Hp as [<-|[<-|[]]]; vm_compute in Hti; discriminate. }
  vm_compute in Hle. apply Hle. reflexivity.
Qed.

(** C3, as stated, fails: the paragraph ["# Title\nbody"] takes the header
    branch, although trimmed it is two lines, not one header line. *)
Lemma header_line_counterexample :
  ~ (forall paragraph : str,
        is_header paragraph = true
        <-> spec_atx_header_line (strip paragraph) = true).
Proof.
  intros H. destruct (H header_then_body) as [H1 _].
  specialize (H1 eq_refl). vm_compute in H1. discriminate.
Qed.

(** C3, amended.  A paragraph takes the header branch if and only if,
    after trimming, it starts with 1 to 6 [#] characters followed by a
    whitespace character; what comes after the line that the pattern
    matched is not looked at.  A trimmed paragraph that is one header
    line is such a paragraph, and the level is the number of leading [#]
    characters.  Every other paragraph goes to the table/image test or is
    plain. *)
Theorem header_classification (paragraph : str) :
  is_header paragraph = header_start (strip paragraph)
  /\ implb (spec_atx_header_line (strip paragraph)) (is_header paragraph)
     = true
  /\ match header_pattern_match (strip paragraph) with
     | Some (group1, _) =>
         List.length group1 = count_prefix is_hash (strip paragraph)
     | None => True
     end.
Proof.
  split; [apply is_header_start|]. split.
  - rewrite is_header_start.
    unfold spec_atx_header_line, header_start.
    set (s := strip paragraph). set (a := count_prefix is_hash s).
    destruct (1 <=? a); [|reflexivity].
    destruct (a <=? 6); [|reflexivity]. cbn [andb].
    destruct (1 <=? count_prefix isspace (skipn a s)) eqn:E; [|reflexivity].
    apply Nat.leb_le in E.
    destruct (count_prefix_pos isspace (skipn a s) E) as (c & r & -> & ->).
    destruct (_ && _); reflexivity.
  - destruct (header_pattern_match (strip paragraph)) as [[g1 g2]|] eqn:M;
      [|exact I].
    apply (header_pattern_match_level _ _ _ M).
Qed.

(** C4, as stated, fails: the one-paragraph document ["# ![a](b)"] holds
    a markdown image, takes the header branch, and no chunk is yielded
    for it. *)
Lemma image_in_header_counterexample :
  ~ (forall (config : ChunkingConfig) (doc_idx : nat) (text p : str),
        In p (split_blank text) ->
        is_table_or_image p = true ->
        exists c pre post,
          In c (yielded_chunks (run_document config doc_idx text))
          /\ text_chunk c = pre ++ p ++ post).
Proof.
  intros H.
  destruct (H {| size := 3; overlap := 0 |} 0 header_with_image
              header_with_image) as (c & _ & _ & Hin & _).
  - left. reflexivity.
  - reflexivity.
  - vm_compute in Hin. exact Hin.
Qed.

(** C4, amended.  In a non-empty document, every paragraph that does not
    take the header branch and holds a table or an image is held, whole,
    by exactly one yielded chunk, whatever [size] is: the chunk's text is
    that paragraph between blank-line separators (or the ends of the
    text), and no other chunk of the document holds the paragraph of that
    position. *)
Theorem atomic_paragraph_in_one_chunk (config : ChunkingConfig)
    (doc_idx : nat) (text : str) (i : nat) (p : str) :
  truthy text = true ->
  nth_error (split_blank text) i = Some p ->
  is_header p = false ->
  is_table_or_image p = true ->
  exists j f c pre post,
    nth_error (run_document_trace config text) j = Some f
    /\ nth_error (yielded_chunks (run_document config doc_idx text)) j = Some c
    /\ In (i, p) (Trace.appended f)
    /\ text_chunk c = pre ++ p ++ post
    /\ ends_with_blank pre /\ starts_with_blank post
    /\ forall j' f',
         nth_error (run_document_trace config text) j' = Some f' ->
         Trace.holds i f' -> j' = j.
Proof.
  intros Htext Hnth Hhdr _.
  pose proof (run_document_trace_appended config text) as Happ.
  unfold appended_paragraphs in Happ. rewrite Htext in Happ. cbn [negb] in Happ.
  pose proof (non_headers_in (split_blank text) 0 i p Hnth Hhdr) as Hin.
  cbn [Nat.add] in Hin. rewrite <- Happ in Hin.
  apply in_concat in Hin as (l & Hl & Hip).
  apply in_map_iff in Hl as (f & <- & Hf).
  apply In_nth_error in Hf as (j & Hj).
  destruct (render_member doc_idx f p (appended_member f i p Hip))
    as (pre & post & E & Hpre & Hpost).
  exists j, f, (Trace.render doc_idx f), pre, post.
  repeat split; try assumption.
  - rewrite run_document_chunks. now apply map_nth_error.
  - intros j' f' Hj' (q & Hq).
    apply (concat_unique
             (map (fun g => map fst (Trace.appended g))
                  (run_document_trace config text)) i)
      with (a := map fst (Trace.appended f')) (b := map fst (Trace.appended f)).
    + rewrite <- map_map, <- concat_map, Happ. apply non_headers_nodup.
    + exact (map_nth_error (fun g => map fst (Trace.appended g)) j' _ Hj').
    + exact (map_nth_error (fun g => map fst (Trace.appended g)) j _ Hj).
    + exact (in_map fst _ _ Hq).
    + exact (in_map fst _ _ Hip).
Qed.

Lemma atomic_paragraph_in_one_chunk_witness :
  truthy image_paragraph = true
  /\ nth_error (split_blank image_paragraph) 0 = Some image_paragraph
  /\ is_header image_paragraph = false
  /\ is_table_or_image image_paragraph = true
  /\ exists j f c pre post,
       nth_error (run_document_trace {| size := 3; overlap := 0 |}
                    image_paragraph) j = Some f
       /\ nth_error (yielded_chunks
                       (run_document {| size := 3; overlap := 0 |} 0
                          image_paragraph)) j = Some c
       /\ In (0, image_paragraph) (Trace.appended f)
       /\ text_chunk c = pre ++ image_paragraph ++ post
       /\ ends_with_blank pre /\ starts_with_blank post
       /\ forall j' f',
            nth_error (run_document_trace {| size := 3; overlap := 0 |}
                         image_paragraph) j' = Some f' ->
            Trace.holds 0 f' -> j' = j.
Proof.
  repeat (split; [reflexivity|]).
  apply (atomic_paragraph_in_one_chunk {| size := 3; overlap := 0 |} 0
           image_paragraph 0 image_paragraph); reflexivity.
Defined.

(** C5.  For every yielded chunk, [n_tokens] is the number of
    whitespace-delimited tokens of its [text_chunk], header put in front
    included. *)
Theorem token_estimate_recomputed (input : list str) (config : ChunkingConfig) :
  Forall tokens_fresh (yielded_chunks (run_markdown input config)).
Proof. apply run_from_tokens. Qed.

(** C6.  Two configurations that differ only in [overlap] give the same
    run: same chunks (text, document index, token estimate) and same
    ticks, in the same order. *)
Theorem overlap_inert (input : list str) (max_size overlap1 overlap2 : Z) :
  run_markdown input {| size := max_size; overlap := overlap1 |}
  = run_markdown input {| size := max_size; overlap := overlap2 |}.
Proof.
  unfold run_markdown. apply run_from_size_only. reflexivity.
Qed.

(** C7.  A run consumed to the end calls [tick] exactly [len(input)]
    times: the events of the run are, document after document, the chunks
    of the document followed by one [tick(1)], also for a document that
    yields no chunk. *)
Theorem tick_once_per_document (input : list str) (config : ChunkingConfig) :
  tick_calls (run_markdown input config) = List.length input
  /\ run_markdown input config
     = List.concat
         (map (fun dt =>
                 map Yield
                     (yielded_chunks (run_document config (fst dt) (snd dt)))
                 ++ [Tick 1])
              (enumerate 0 input))
  /\ run_markdown [[]] config = [Tick 1].
Proof.
  split; [apply run_from_ticks|]. split; [apply run_from_shape|reflexivity].
Qed.

(** C9.  At a header paragraph of level [L], a chunk is yielded if and
    only if [current_chunk] is non-empty and [current_header_level] is 0
    or at least [L]; its text is [current_header], a blank line and the
    joined [current_chunk] when [current_header] is non-empty, the joined
    [current_chunk] alone otherwise; [current_chunk] is then empty, and in
    both cases the paragraph becomes [current_header] with level [L]. *)
Theorem header_transition (config : ChunkingConfig) (doc_idx : nat)
    (st : state) (paragraph group1 group2 : str) :
  header_pattern_match (strip paragraph) = Some (group1, group2) ->
  let L := List.length group1 in
  let flush :=
    truthy (current_chunk st)
    && ((current_header_level st =? 0) || (L <=? current_header_level st)) in
  let chunk_text :=
    if truthy (current_header st)
    then current_header st ++ [NL; NL] ++ join_blank (current_chunk st)
    else join_blank (current_chunk st) in
  loop_body config doc_idx st paragraph
  = ({| current_chunk := if flush then [] else current_chunk st;
        current_header_level := L;
        current_header := paragraph |},
     if flush
     then [ {| text_chunk := chunk_text;
               source_doc_indices := [doc_idx];
               n_tokens := word_count chunk_text |} ]
     else [])
  /\ (flush = true
      <-> current_chunk st <> []
          /\ (current_header_level st = 0 \/ L <= current_header_level st))
  /\ L = count_prefix is_hash (strip paragraph) /\ 1 <= L <= 6.
Proof.
  intros M L flush chunk_text. split; [|split].
  - unfold loop_body. rewrite M. fold L.
    replace ((L <=? current_header_level st) || (current_header_level st =? 0))
      with ((current_header_level st =? 0) || (L <=? current_header_level st))
      by apply orb_comm.
    fold flush. destruct flush; [|reflexivity].
    subst chunk_text. unfold with_header.
    destruct (truthy (current_header st)); reflexivity.
  - subst flush. rewrite andb_true_iff, orb_true_iff, Nat.eqb_eq, Nat.leb_le.
    destruct (current_chunk st); cbn; split; intros [H1 H2];
      (split; [congruence || discriminate|assumption]).
  - destruct (header_pattern_match_level _ _ _ M) as (E & Hr & _).
    subst L. rewrite E. split; [reflexivity|exact Hr].
Qed.

Lemma header_transition_witness :
  header_pattern_match (strip (lit "## B")) = Some (lit "##", lit "B")
  /\ loop_body {| size := 3; overlap := 0 |} 0
       {| current_chunk := [lit "x"]; current_header_level := 2;
          current_header := lit "## A" |} (lit "## B")
     = ({| current_chunk := []; current_header_level := 2;
           current_header := lit "## B" |},
        [ {| text_chunk := lit "## A" ++ [NL; NL] ++ lit "x";
             source_doc_indices := [0];
             n_tokens := 3 |} ]).
Proof.
  split; [reflexivity|].
  apply (header_transition {| size := 3; overlap := 0 |} 0
           {| current_chunk := [lit "x"]; current_header_level := 2;
              current_header := lit "## A" |}
           (lit "## B") (lit "##") (lit "B") eq_refl).
Defined.

(** C10.  With a [size] that is not negative, a non-empty document made
    of whitespace only yields exactly one chunk, whose text is its paragraphs joined again by blank lines (the
    document itself) and whose [n_tokens] is 0, and then ticks; the empty
    document yields no chunk. *)
Theorem blank_document_one_chunk (config : ChunkingConfig) (doc_idx : nat)
    (text : str) :
  text <> [] ->
  all_space text ->
  (0 <= size config)%Z ->
  run_document config doc_idx text
  = [ Yield {| text_chunk := join_blank (split_blank text);
               source_doc_indices := [doc_idx];
               n_tokens := 0 |};
      Tick 1 ]
  /\ join_blank (split_blank text) = text
  /\ run_document config doc_idx [] = [Tick 1].
Proof.
  intros Hne Hall Hs. split; [|split; [apply join_split_blank|reflexivity]].
  unfold run_document. destruct text as [|c r]; [congruence|].
  cbn [truthy negb]. unfold document_chunks, initial_state.
  rewrite (for_paragraphs_all_space config doc_idx)
    by (try apply split_blank_all_space; try constructor; try lia; assumption).
  cbn [app]. unfold last_chunk. cbn [current_chunk current_header].
  pose proof (split_blank_nonempty (c :: r)) as Hsplit.
  destruct (split_blank (c :: r)) as [|q qs] eqn:E; [congruence|].
  cbn [truthy andb]. rewrite <- E.
  rewrite word_count_all_space
    by (apply join_blank_all_space, split_blank_all_space; assumption).
  reflexivity.
Qed.

Lemma blank_document_one_chunk_witness :
  blank_document <> []
  /\ all_space blank_document
  /\ (0 <= size {| size := 3; overlap := 0 |})%Z
  /\ run_document {| size := 3; overlap := 0 |} 0 blank_document
     = [ Yield {| text_chunk := join_blank (split_blank blank_document);
                  source_doc_indices := [0];
                  n_tokens := 0 |};
         Tick 1 ]
  /\ join_blank (split_blank blank_document) = blank_document
  /\ run_document {| size := 3; overlap := 0 |} 0 [] = [Tick 1].
Proof.
  split; [discriminate|]. split; [reflexivity|]. split; [discriminate|].
  apply (blank_document_one_chunk {| size := 3; overlap := 0 |} 0
           blank_document); [discriminate|reflexivity|discriminate].
Defined.

(** ** Documents are chunked independently *)

Section Independence.

Variable config : ChunkingConfig.

Lemma loop_body_relabel (k doc_idx : nat) (st : state) (p : str) :
  loop_body config (k + doc_idx) st p
  = (fst (loop_body config doc_idx st p),
     map (relabel k) (snd (loop_body config doc_idx st p))).
Proof.
  unfold loop_body.
  destruct (header_pattern_match (strip p)) as [[g1 g2]|].
  - destruct (truthy (current_chunk st) && _); reflexivity.
  - destruct (table_pattern_search p || image_pattern_search p).
    + destruct (negb (truthy (current_chunk st)) && truthy (current_header st));
        match goal with |- context [Z.ltb ?a ?b] => destruct (Z.ltb a b) end;
        reflexivity.
    + match goal with |- context [Z.ltb ?a ?b] => destruct (Z.ltb a b) end;
        reflexivity.
Qed.

Lemma for_paragraphs_relabel (k doc_idx : nat) (paragraphs : list str) :
  forall st,
    for_paragraphs config (k + doc_idx) st paragraphs
    = (fst (for_paragraphs config doc_idx st paragraphs),
       map (relabel k) (snd (for_paragraphs config doc_idx st paragraphs))).
Proof.
  induction paragraphs as [|p rest IH]; intros st; [reflexivity|].
  cbn [for_paragraphs]. rewrite loop_body_relabel.
  destruct (loop_body config doc_idx st p) as [st1 y1]. cbn [fst snd].
  rewrite IH.
  destruct (for_paragraphs config doc_idx st1 rest) as [st2 y2].
  cbn [fst snd]. rewrite map_app. reflexivity.
Qed.

Lemma run_document_relabel (k doc_idx : nat) (text : str) :
  run_document config (k + doc_idx) text
  = map (shift_doc k) (run_document config doc_idx text).
Proof.
  unfold run_document. destruct (negb (truthy text)); [reflexivity|].
  rewrite map_app, map_map. cbn [map shift_doc]. f_equal.
  unfold document_chunks. rewrite for_paragraphs_relabel.
  destruct (for_paragraphs config doc_idx initial_state (split_blank text))
    as [st y]. cbn [fst snd].
  rewrite !map_app, !map_map. f_equal.
  unfold last_chunk. destruct (truthy (current_chunk st)); reflexivity.
Qed.

Lemma run_from_relabel (k : nat) (input : list str) :
  forall doc_idx,
    run_from config (k + doc_idx) input
    = map (shift_doc k) (run_from config doc_idx input).
Proof.
  induction input as [|text rest IH]; intros d; [reflexivity|].
  cbn [run_from]. rewrite map_app, run_document_relabel.
  replace (S (k + d)) with (k + S d) by lia. rewrite IH. reflexivity.
Qed.

Lemma run_from_app (a b : list str) :
  forall doc_idx,
    run_from config doc_idx (a ++ b)
    = run_from config doc_idx a
      ++ run_from config (List.length a + doc_idx) b.
Proof.
  induction a as [|text rest IH]; intros d; [reflexivity|].
  cbn [app run_from List.length]. rewrite IH, <- app_assoc.
  replace (List.length rest + S d) with (S (List.length rest) + d) by lia.
  reflexivity.
Qed.

Lemma sorted_const_app (d : nat) (l1 l2 : list nat) :
  Forall (eq d) l1 -> StronglySorted le l2 -> Forall (le d) l2 ->
  StronglySorted le (l1 ++ l2).
Proof.
  intros H1 H2 H3. induction l1 as [|x l IH]; [exact H2|].
  inversion H1 as [|? ? Hx Hl]; subst. cbn.
  constructor; [apply IH; exact Hl|].
  apply Forall_app. split; [|exact H3].
  eapply Forall_impl; [|exact Hl]. intros y <-. lia.
Qed.

(** The chunks of the documents from index [doc_idx] on carry one index
    each, of a non-empty document of the input, and come in the order of
    the documents. *)
Lemma run_from_docs (input : list str) :
  forall doc_idx,
    Forall (fun c => exists j text,
                source_doc_indices c = [doc_idx + j]
                /\ nth_error input j = Some text /\ text <> [])
           (yielded_chunks (run_from config doc_idx input))
    /\ StronglySorted le (chunk_docs (yielded_chunks (run_from config doc_idx input)))
    /\ Forall (le doc_idx) (chunk_docs (yielded_chunks (run_from config doc_idx input))).
Proof.
  induction input as [|text rest IH]; intros d.
  - cbn. repeat split; constructor.
  - cbn [run_from]. rewrite yielded_chunks_app.
    destruct (IH (S d)) as (F & S2 & G).
    assert (Hdoc : Forall (fun c => source_doc_indices c = [d] /\ text <> [])
                          (yielded_chunks (run_document config d text))).
    { rewrite run_document_chunks. unfold run_document_trace.
      destruct text as [|ch r]; [constructor|]. cbn [truthy negb].
      apply Forall_map, Forall_forall. intros f _. split; [reflexivity|discriminate]. }
    assert (Hd : Forall (eq d)
                   (chunk_docs (yielded_chunks (run_document config d text)))).
    { unfold chunk_docs. induction Hdoc as [|c l [Hc _] _ IHl]; [constructor|].
      cbn. rewrite Hc. constructor; [reflexivity|exact IHl]. }
    split; [|split].
    + apply Forall_app. split.
      * eapply Forall_impl; [|exact Hdoc]. intros c [Hc Ht].
        exists 0, text. rewrite Nat.add_0_r. auto.
      * eapply Forall_impl; [|exact F]. intros c (j & t & Hc & Hn & Ht).
        exists (S j), t. replace (d + S j) with (S d + j) by lia. auto.
    + unfold chunk_docs in *. rewrite map_app, concat_app.
      apply (sorted_const_app d); [exact Hd|exact S2|].
      eapply Forall_impl; [|exact G]. intros y Hy. lia.
    + unfold chunk_docs in *. rewrite map_app, concat_app.
      apply Forall_app. split.
      * eapply Forall_impl; [|exact Hd]. intros y <-. lia.
      * eapply Forall_impl; [|exact G]. intros y Hy. lia.
Qed.

End Independence.

(** X1.  Chunking a list of documents is chunking its front part and its
    back part separately: the events of the whole are the events of the
    front followed by the events of the back, with the document indices
    of the back moved by the length of the front.  No state of the loop
    passes from one document to the next. *)
Theorem run_markdown_app (a b : list str) (config : ChunkingConfig) :
  run_markdown (a ++ b) config
  = run_markdown a config
    ++ map (shift_doc (List.length a)) (run_markdown b config).
Proof.
  unfold run_markdown. rewrite run_from_app, <- run_from_relabel.
  reflexivity.
Qed.

(** X2.  Every yielded chunk carries exactly one document index, that of
    a non-empty document of the input, and the chunks come in the order
    of the documents. *)
Theorem chunk_documents (input : list str) (config : ChunkingConfig) :
  Forall (fun c => exists d text,
              source_doc_indices c = [d]
              /\ nth_error input d = Some text /\ text <> [])
         (yielded_chunks (run_markdown input config))
  /\ StronglySorted le (chunk_docs (yielded_chunks (run_markdown input config))).
Proof.
  destruct (run_from_docs config input 0) as (F & S1 & _).
  split; [exact F|exact S1].
Qed.

(** ** Words of joined paragraphs *)

Lemma word_count_join (l : list str) :
  word_count (join_blank l) = list_sum (map word_count l).
Proof.
  induction l as [|x l IH]; [reflexivity|].
  destruct l as [|y l'].
  - cbn -[word_count]. lia.
  - rewrite join_blank_cons by discriminate.
    rewrite word_count_app by reflexivity.
    change (word_count ([NL; NL] ++ join_blank (y :: l')))
      with (word_count (join_blank (y :: l'))).
    rewrite IH. reflexivity.
Qed.

Lemma word_count_join_snoc (l : list str) (p : str) :
  word_count (join_blank (l ++ [p])) = word_count (join_blank l) + word_count p.
Proof.
  rewrite !word_count_join, map_app, list_sum_app. cbn -[word_count]. lia.
Qed.

Lemma word_count_join_prefix (l rest : list str) :
  word_count (join_blank l) <= word_count (join_blank (l ++ rest)).
Proof. rewrite !word_count_join, map_app, list_sum_app. lia. Qed.

Lemma is_header_truthy (p : str) : is_header p = true -> truthy p = true.
Proof. destruct p; [discriminate|reflexivity]. Qed.

Lemma is_header_false (p : str) :
  is_header p = false -> header_pattern_match (strip p) = None.
Proof.
  unfold is_header. destruct (header_pattern_match (strip p)); [discriminate|].
  reflexivity.
Qed.

(** ** Documents without headers that fit *)

Lemma for_paragraphs_fit (config : ChunkingConfig) (doc_idx : nat)
    (paragraphs : list str) :
  forall pending,
    (forall p, In p paragraphs -> is_header p = false) ->
    (Z.of_nat (word_count (join_blank (pending ++ paragraphs)))
     <= size config)%Z ->
    for_paragraphs config doc_idx
      {| current_chunk := pending; current_header_level := 0;
         current_header := [] |} paragraphs
    = ({| current_chunk := pending ++ paragraphs; current_header_level := 0;
          current_header := [] |}, []).
Proof.
  induction paragraphs as [|p rest IH]; intros pending Hplain Hfit.
  - cbn. rewrite app_nil_r. reflexivity.
  - cbn [for_paragraphs]. unfold loop_body.
    rewrite (is_header_false p) by (apply Hplain; now left).
    cbn [current_chunk current_header current_header_level truthy].
    rewrite andb_false_r.
    assert (Hp : (size config
                  <? Z.of_nat (word_count (join_blank (pending ++ [p]))))%Z
                 = false).
    { apply Z.ltb_ge.
      pose proof (word_count_join_prefix (pending ++ [p]) rest) as H.
      rewrite <- app_assoc in H. cbn [app] in H. lia. }
    rewrite Hp.
    assert (E : for_paragraphs config doc_idx
                  {| current_chunk := pending ++ [p];
                     current_header_level := 0; current_header := [] |} rest
                = ({| current_chunk := (pending ++ [p]) ++ rest;
                      current_header_level := 0; current_header := [] |}, [])).
    { apply IH.
      - intros q Hq. apply Hplain. now right.
      - rewrite <- app_assoc. exact Hfit. }
    destruct (table_pattern_search p || image_pattern_search p);
      rewrite E, <- app_assoc; reflexivity.
Qed.

(** X3.  A document without header paragraphs whose word count does not
    exceed [size] is yielded unchanged, as one chunk with the document's
    word count as token estimate. *)
Theorem small_plain_document_unchanged (config : ChunkingConfig)
    (doc_idx : nat) (text : str) :
  text <> [] ->
  (forall p, In p (split_blank text) -> is_header p = false) ->
  (Z.of_nat (word_count text) <= size config)%Z ->
  run_document config doc_idx text
  = [ Yield {| text_chunk := text;
               source_doc_indices := [doc_idx];
               n_tokens := word_count text |};
      Tick 1 ].
Proof.
  intros Hne Hplain Hfit. unfold run_document.
  destruct text as [|c r] eqn:Et; [congruence|]. rewrite <- Et in *.
  replace (negb (truthy text)) with false by (subst text; reflexivity).
  unfold document_chunks, initial_state.
  rewrite (for_paragraphs_fit config doc_idx (split_blank text) [] Hplain)
    by (cbn [app]; rewrite join_split_blank; exact Hfit).
  cbn [app]. unfold last_chunk. cbn [current_chunk current_header].
  pose proof (split_blank_nonempty text) as Hs.
  destruct (split_blank text) as [|q qs] eqn:E; [congruence|].
  cbn [truthy andb]. rewrite <- E, join_split_blank. reflexivity.
Qed.

Lemma small_plain_document_unchanged_witness :
  two_paragraphs <> []
  /\ (forall p, In p (split_blank two_paragraphs) -> is_header p = false)
  /\ (Z.of_nat (word_count two_paragraphs)
      <= size {| size := 6; overlap := 0 |})%Z
  /\ run_document {| size := 6; overlap := 0 |} 0 two_paragraphs
     = [ Yield {| text_chunk := two_paragraphs;
                  source_doc_indices := [0];
                  n_tokens := word_count two_paragraphs |};
         Tick 1 ].
Proof.
  assert (H : forall p, In p (split_blank two_paragraphs) ->
                        is_header p = false).
  { intros p [<-|[<-|[]]]; reflexivity. }
  split; [discriminate|]. split; [exact H|]. split; [discriminate|].
  apply (small_plain_document_unchanged {| size := 6; overlap := 0 |} 0
           two_paragraphs); [discriminate|exact H|discriminate].
Defined.

(** ** No chunk of header context alone *)

Section ChunkCount.

Variable config : ChunkingConfig.

Lemma ends_with_paragraph_snoc (l : list Trace.item) (i : nat) (p : str) :
  ends_with_paragraph
    (l ++ [ {| Trace.from_header := false; Trace.idx := i; Trace.txt := p |} ]).
Proof. right. eexists _, _. split; reflexivity. Qed.

Lemma appended_nonempty (s : Trace.site) (pre : option Trace.item)
    (l : list Trace.item) :
  ends_with_paragraph l -> l <> [] ->
  Trace.appended
    {| Trace.flush_site := s; Trace.prefix := pre; Trace.items := l |} <> [].
Proof.
  intros [->|(l' & it & -> & Hit)] Hne; [congruence|].
  unfold Trace.appended. cbn [Trace.items].
  rewrite filter_app, map_app. cbn [filter]. rewrite Hit. cbn.
  intros E. apply app_eq_nil in E as [_ E]. discriminate.
Qed.

Lemma truthy_nonempty {A : Type} (l : list A) : truthy l = true -> l <> [].
Proof. destruct l; [discriminate|discriminate]. Qed.

Lemma loop_body_nonempty (ts : Trace.tstate) (i : nat) (p : str) :
  ends_with_paragraph (Trace.t_chunk ts) ->
  Forall (fun f => Trace.appended f <> [])
         (snd (Trace.loop_body config ts i p))
  /\ ends_with_paragraph (Trace.t_chunk (fst (Trace.loop_body config ts i p))).
Proof.
  intros Hinv. unfold Trace.loop_body.
  destruct (header_pattern_match (strip p)) as [[g1 g2]|].
  - destruct (truthy (Trace.t_chunk ts)) eqn:T; cbn [andb].
    + destruct ((List.length g1 <=? Trace.t_header_level ts)
                || (Trace.t_header_level ts =? 0)); cbn [fst snd Trace.t_chunk].
      * split; [|now left]. constructor; [|constructor].
        apply appended_nonempty; [exact Hinv|now apply truthy_nonempty].
      * split; [constructor|exact Hinv].
    + cbn [fst snd Trace.t_chunk]. split; [constructor|exact Hinv].
  - destruct ((table_pattern_search p || image_pattern_search p)
              && negb (truthy (Trace.t_chunk ts))
              && truthy (Trace.t_header ts));
      match goal with |- context [Z.ltb ?a ?b] => destruct (Z.ltb a b) end;
      cbn [fst snd Trace.t_chunk];
      (split;
       [try (constructor; [|constructor];
             apply appended_nonempty;
             [apply ends_with_paragraph_snoc
             |intros E; apply app_eq_nil in E as [_ E]; discriminate]);
        try constructor
       |try (now left); apply ends_with_paragraph_snoc]).
Qed.

Lemma for_paragraphs_nonempty (paragraphs : list str) :
  forall (ts : Trace.tstate) (i : nat),
    ends_with_paragraph (Trace.t_chunk ts) ->
    Forall (fun f => Trace.appended f <> [])
           (snd (Trace.for_paragraphs config ts i paragraphs))
    /\ ends_with_paragraph
         (Trace.t_chunk (fst (Trace.for_paragraphs config ts i paragraphs))).
Proof.
  induction paragraphs as [|p rest IH]; intros ts i Hinv.
  - cbn. split; [constructor|exact Hinv].
  - cbn [Trace.for_paragraphs].
    destruct (loop_body_nonempty ts i p Hinv) as [F1 I1].
    destruct (Trace.loop_body config ts i p) as [ts1 y1]. cbn [fst snd] in *.
    destruct (IH ts1 (S i) I1) as [F2 I2].
    destruct (Trace.for_paragraphs config ts1 (S i) rest) as [ts2 y2].
    cbn [fst snd] in *. split; [|exact I2].
    apply Forall_app. split; assumption.
Qed.

Lemma run_document_trace_nonempty (text : str) :
  Forall (fun f => Trace.appended f <> []) (run_document_trace config text).
Proof.
  unfold run_document_trace. destruct (negb (truthy text)); [constructor|].
  unfold Trace.document_trace.
  destruct (for_paragraphs_nonempty (split_blank text) Trace.initial_tstate 0)
    as [F I]; [now left|].
  destruct (Trace.for_paragraphs config Trace.initial_tstate 0
              (split_blank text)) as [ts y]. cbn [fst snd] in *.
  apply Forall_app. split; [exact F|].
  unfold Trace.last_chunk. destruct (truthy (Trace.t_chunk ts)) eqn:T;
    [|constructor].
  constructor; [|constructor].
  apply appended_nonempty; [exact I|now apply truthy_nonempty].
Qed.

Lemma length_concat_nonempty {A : Type} (L : list (list A)) :
  Forall (fun l => l <> []) L -> List.length L <= List.length (List.concat L).
Proof.
  induction 1 as [|l L Hl _ IH]; [reflexivity|].
  cbn. rewrite length_app. destruct l; [congruence|]. cbn. lia.
Qed.

End ChunkCount.

(** X4.  A document yields at most as many chunks as it has paragraphs
    that do not take the header branch: no chunk is made of header
    context alone, and a document whose paragraphs are all headers yields
    no chunk. *)
Theorem chunks_at_most_paragraphs (config : ChunkingConfig) (doc_idx : nat)
    (text : str) :
  List.length (yielded_chunks (run_document config doc_idx text))
  <= List.length (appended_paragraphs text).
Proof.
  rewrite run_document_chunks, length_map.
  rewrite <- (run_document_trace_appended config text).
  rewrite <- (length_map Trace.appended (run_document_trace config text)).
  apply length_concat_nonempty. apply Forall_map.
  apply run_document_trace_nonempty.
Qed.

(** ** Where headers go *)

Section HeaderUse.

Variable config : ChunkingConfig.
Variable all : list str.

Lemma header_positions_weaken (i j : nat) (l : list (nat * str)) :
  i <= j -> header_positions all i l -> header_positions all j l.
Proof.
  intros Hij [Hs Hf]. split; [exact Hs|].
  eapply Forall_impl; [|exact Hf]. intros ks (H1 & H2 & H3).
  split; [lia|split; assumption].
Qed.

Lemma strongly_sorted_app_l {A : Type} (R : A -> A -> Prop) (l1 l2 : list A) :
  StronglySorted R (l1 ++ l2) -> StronglySorted R l1.
Proof.
  induction l1 as [|a l1 IH]; cbn; intros H; [constructor|].
  apply StronglySorted_inv in H as [H1 H2].
  constructor; [auto|]. apply Forall_app in H2. tauto.
Qed.

Lemma header_positions_front (i : nat) (l1 l2 : list (nat * str)) :
  header_positions all i (l1 ++ l2) -> header_positions all i l1.
Proof.
  intros [Hs Hf]. split.
  - rewrite map_app in Hs. eapply strongly_sorted_app_l; eauto.
  - apply Forall_app in Hf. tauto.
Qed.

Lemma strongly_sorted_snoc (l : list nat) (i : nat) :
  StronglySorted lt l -> Forall (fun k => k < i) l ->
  StronglySorted lt (l ++ [i]).
Proof.
  induction l as [|a l IH]; cbn; intros Hs Hf.
  - repeat constructor.
  - apply StronglySorted_inv in Hs as [H1 H2].
    inversion Hf as [|? ? Ha Hl]; subst.
    constructor; [auto|]. apply Forall_app. split; [exact H2|].
    constructor; [exact Ha|constructor].
Qed.

Lemma header_positions_snoc (i : nat) (l : list (nat * str)) (p : str) :
  header_positions all i l ->
  nth_error all i = Some p -> is_header p = true ->
  header_positions all (S i) (l ++ [(i, p)]).
Proof.
  intros [Hs Hf] Hn Hp. split.
  - rewrite map_app. cbn [map fst]. apply strongly_sorted_snoc; [exact Hs|].
    apply Forall_map. eapply Forall_impl; [|exact Hf].
    intros ks (H1 & _ & _). exact H1.
  - apply Forall_app. split.
    + eapply Forall_impl; [|exact Hf]. intros ks (H1 & H2 & H3).
      split; [lia|split; assumption].
    + constructor; [|constructor]. cbn [fst snd].
      split; [lia|split; assumption].
Qed.

Lemma seeded_snoc_paragraph (l : list Trace.item) (i : nat) (p : str) :
  seeded (l ++ [ {| Trace.from_header := false; Trace.idx := i;
                    Trace.txt := p |} ]) = seeded l.
Proof.
  unfold seeded. rewrite filter_app. cbn. rewrite app_nil_r. reflexivity.
Qed.

(** What one paragraph does to the headers in play: a paragraph that is
    not a header moves them from the state to the records at most; a
    header paragraph comes after those that stay. *)
Lemma loop_body_attached (ts : Trace.tstate) (i : nat) (p : str) :
  exists kept dropped,
    live ts = kept ++ dropped
    /\ List.concat (map attached (snd (Trace.loop_body config ts i p)))
       ++ live (fst (Trace.loop_body config ts i p))
       = kept ++ (if is_header p then [(i, p)] else []).
Proof.
  unfold Trace.loop_body.
  destruct (header_pattern_match (strip p)) as [[g1 g2]|] eqn:M.
  - assert (Hp : is_header p = true) by (unfold is_header; now rewrite M).
    rewrite Hp.
    destruct (truthy (Trace.t_chunk ts)
              && ((List.length g1 <=? Trace.t_header_level ts)
                  || (Trace.t_header_level ts =? 0)));
      cbn [fst snd map List.concat].
    + exists (live ts), []. split; [now rewrite app_nil_r|].
      unfold live, attached, seeded at 3.
      cbn [Trace.items Trace.prefix Trace.t_chunk Trace.t_header
           Trace.t_header_idx filter map app].
      rewrite (is_header_truthy p Hp), app_nil_r.
      destruct (truthy (Trace.t_header ts)); reflexivity.
    + exists (seeded (Trace.t_chunk ts)),
        (if truthy (Trace.t_header ts)
         then [(Trace.t_header_idx ts, Trace.t_header ts)] else []).
      split; [reflexivity|].
      unfold live. cbn [Trace.t_chunk Trace.t_header Trace.t_header_idx app].
      rewrite (is_header_truthy p Hp). reflexivity.
  - assert (Hp : is_header p = false) by (unfold is_header; now rewrite M).
    rewrite Hp. exists (live ts), []. split; [now rewrite app_nil_r|].
    rewrite app_nil_r.
    destruct ((table_pattern_search p || image_pattern_search p)
              && negb (truthy (Trace.t_chunk ts))
              && truthy (Trace.t_header ts)) eqn:Seed.
    + apply andb_prop in Seed as [Seed Hh].
      apply andb_prop in Seed as [_ Seed].
      destruct (Trace.t_chunk ts) eqn:Ec; [|discriminate].
      unfold live. rewrite Ec, Hh.
      match goal with |- context [Z.ltb ?a ?b] => destruct (Z.ltb a b) end;
        reflexivity.
    + match goal with |- context [Z.ltb ?a ?b] => destruct (Z.ltb a b) end;
        cbn [fst snd map List.concat]; unfold live, attached;
        cbn [Trace.items Trace.prefix Trace.t_chunk Trace.t_header
             Trace.t_header_idx];
        rewrite seeded_snoc_paragraph, ?app_nil_r; reflexivity.
Qed.

Lemma for_paragraphs_attached (paragraphs : list str) :
  forall (ts : Trace.tstate) (i : nat) (used : list (nat * str)),
    (forall j, nth_error paragraphs j = nth_error all (i + j)) ->
    header_positions all i (used ++ live ts) ->
    header_positions all (i + List.length paragraphs)
      (used
       ++ List.concat
            (map attached (snd (Trace.for_paragraphs config ts i paragraphs)))
       ++ live (fst (Trace.for_paragraphs config ts i paragraphs))).
Proof.
  induction paragraphs as [|p rest IH]; intros ts i used Hall Hinv.
  - cbn. rewrite Nat.add_0_r. exact Hinv.
  - cbn [Trace.for_paragraphs List.length].
    destruct (loop_body_attached ts i p) as (kept & dropped & El & Estep).
    destruct (Trace.loop_body config ts i p) as [ts1 y1]. cbn [fst snd] in *.
    assert (Hp : nth_error all i = Some p).
    { specialize (Hall 0). rewrite Nat.add_0_r in Hall. now rewrite <- Hall. }
    assert (H1 : header_positions all (S i)
                   ((used ++ List.concat (map attached y1)) ++ live ts1)).
    { rewrite <- app_assoc, Estep, app_assoc.
      rewrite El, app_assoc in Hinv. apply header_positions_front in Hinv.
      destruct (is_header p) eqn:Hh.
      - apply header_positions_snoc; assumption.
      - rewrite app_nil_r. eapply header_positions_weaken; [|exact Hinv]. lia. }
    specialize (IH ts1 (S i) (used ++ List.concat (map attached y1))).
    destruct (Trace.for_paragraphs config ts1 (S i) rest) as [ts2 y2].
    cbn [fst snd] in *.
    replace (i + S (List.length rest)) with (S i + List.length rest) by lia.
    rewrite map_app, concat_app, <- !app_assoc.
    rewrite <- !app_assoc in IH. apply IH; [|rewrite <- app_assoc in H1; exact H1].
    intros j. specialize (Hall (S j)). cbn in Hall.
    replace (S i + j) with (i + S j) by lia. exact Hall.
Qed.

Lemma last_chunk_attached (ts : Trace.tstate) :
  exists kept dropped,
    live ts = kept ++ dropped
    /\ List.concat (map attached (Trace.last_chunk ts)) = kept.
Proof.
  unfold Trace.last_chunk, live.
  destruct (truthy (Trace.t_chunk ts)) eqn:T.
  - cbn [map List.concat]. rewrite app_nil_r. unfold attached.
    cbn [Trace.items Trace.prefix].
    destruct (truthy (Trace.t_header ts)); cbn [andb].
    + destruct (negb (mem (Trace.t_header ts)
                          (map Trace.txt (Trace.t_chunk ts)))).
      * eexists _, []. split; [now rewrite app_nil_r|reflexivity].
      * eexists _, _. split; [reflexivity|now rewrite app_nil_r].
    + exists (seeded (Trace.t_chunk ts)), [].
      split; [reflexivity|apply app_nil_r].
  - destruct (Trace.t_chunk ts); [|discriminate].
    exists [], (seeded []
                ++ if truthy (Trace.t_header ts)
                   then [(Trace.t_header_idx ts, Trace.t_header ts)] else []).
    split; reflexivity.
Qed.

End HeaderUse.

Lemma document_trace_attached (config : ChunkingConfig) (text : str) :
  header_positions (split_blank text) (List.length (split_blank text))
    (List.concat (map attached (Trace.document_trace config text))).
Proof.
  unfold Trace.document_trace.
  pose proof (for_paragraphs_attached config (split_blank text)
                (split_blank text) Trace.initial_tstate 0 []) as H.
  destruct (Trace.for_paragraphs config Trace.initial_tstate 0
              (split_blank text)) as [ts y]. cbn [fst snd app Nat.add] in H.
  rewrite map_app, concat_app.
  destruct (last_chunk_attached ts) as (kept & dropped & El & ->).
  rewrite El, app_assoc in H. eapply header_positions_front. apply H.
  - reflexivity.
  - split; constructor.
Qed.

Lemma strongly_sorted_nodup (l : list nat) : StronglySorted lt l -> NoDup l.
Proof.
  induction 1 as [|a l Hs IH Ha]; constructor; [|exact IH].
  intros Hin. rewrite Forall_forall in Ha. specialize (Ha a Hin). lia.
Qed.

(** X5.  No header paragraph is attached to two chunks of a document, nor
    twice to one: the headers seeded into [current_chunk] or put in front
    of a chunk when it is yielded are header paragraphs of the document
    at pairwise different positions, taken in the order of the source. *)
Theorem header_attached_once (config : ChunkingConfig) (doc_idx : nat)
    (text : str) :
  yielded_chunks (run_document config doc_idx text)
  = map (Trace.render doc_idx) (run_document_trace config text)
  /\ NoDup (map fst (List.concat
                       (map attached (run_document_trace config text))))
  /\ StronglySorted lt
       (map fst (List.concat
                   (map attached (run_document_trace config text))))
  /\ Forall (fun ks => nth_error (split_blank text) (fst ks) = Some (snd ks)
                       /\ is_header (snd ks) = true)
            (List.concat (map attached (run_document_trace config text))).
Proof.
  split; [apply run_document_chunks|].
  unfold run_document_trace. destruct (negb (truthy text)).
  - cbn. repeat split; constructor.
  - destruct (document_trace_attached config text) as [Hs Hf].
    split; [now apply strongly_sorted_nodup|]. split; [exact Hs|].
    eapply Forall_impl; [|exact Hf]. intros ks (_ & H2 & H3).
    split; assumption.
Qed.

(** ** Counting words over a document *)

Section WordBudget.

Lemma words_of_app (a b : list (nat * str)) :
  words_of (a ++ b) = words_of a + words_of b.
Proof. unfold words_of. rewrite map_app. apply list_sum_app. Qed.

Lemma words_of_single (i : nat) (p : str) : words_of [(i, p)] = word_count p.
Proof. unfold words_of. cbn -[word_count]. apply Nat.add_0_r. Qed.

Lemma words_of_nil : words_of [] = 0.
Proof. reflexivity. Qed.

Lemma words_of_concat {A : Type} (g : A -> list (nat * str)) (l : list A) :
  list_sum (map (fun x => words_of (g x)) l)
  = words_of (List.concat (map g l)).
Proof.
  induction l as [|x l IH]; [reflexivity|].
  cbn [map List.concat list_sum fold_right].
  rewrite words_of_app. unfold list_sum in IH. rewrite IH. reflexivity.
Qed.

Lemma words_of_items (l : list Trace.item) :
  list_sum (map word_count (map Trace.txt l))
  = words_of (map (fun it => (Trace.idx it, Trace.txt it))
                  (filter (fun it => negb (Trace.from_header it)) l))
    + words_of (seeded l).
Proof.
  unfold seeded, words_of.
  induction l as [|it l IH]; [reflexivity|].
  cbn [map filter list_sum fold_right]. unfold list_sum in IH. rewrite IH.
  destruct (Trace.from_header it); cbn [negb map fold_right snd]; lia.
Qed.

(** The token estimate of a chunk counts the words of its appended
    paragraphs and of the headers attached to it. *)
Lemma render_words (doc_idx : nat) (f : Trace.flushed) :
  n_tokens (Trace.render doc_idx f)
  = words_of (Trace.appended f) + words_of (attached f).
Proof.
  rewrite render_tokens. unfold Trace.body.
  rewrite word_count_join, words_of_items.
  unfold attached, Trace.appended, Trace.prefix_text.
  rewrite words_of_app.
  destruct (Trace.prefix f);
    rewrite ?words_of_single, ?words_of_nil;
    change (word_count []) with 0; lia.
Qed.

Lemma total_tokens_trace (doc_idx : nat) (trace : list Trace.flushed) :
  total_tokens (map (Trace.render doc_idx) trace)
  = words_of (List.concat (map Trace.appended trace))
    + words_of (List.concat (map attached trace)).
Proof.
  unfold total_tokens. rewrite <- !words_of_concat, map_map.
  induction trace as [|f l IH]; [reflexivity|].
  cbn [map list_sum fold_right]. unfold list_sum in IH.
  rewrite IH, render_words. lia.
Qed.

Lemma headers_cons (start : nat) (p : str) (rest : list str) :
  headers start (p :: rest)
  = (if is_header p then [(start, p)] else []) ++ headers (S start) rest.
Proof.
  unfold headers, enumerate. cbn. destruct (is_header p); reflexivity.
Qed.

Lemma words_of_partition (paragraphs : list str) :
  forall start,
    words_of (non_headers start paragraphs) + words_of (headers start paragraphs)
    = list_sum (map word_count paragraphs).
Proof.
  induction paragraphs as [|p rest IH]; intros start; [reflexivity|].
  rewrite non_headers_cons, headers_cons, !words_of_app.
  cbn [map list_sum fold_right]. specialize (IH (S start)).
  unfold list_sum in IH. rewrite <- IH.
  destruct (is_header p); rewrite ?words_of_single, ?words_of_nil; lia.
Qed.

(** Header paragraphs taken at increasing positions weigh no more than
    all the header paragraphs. *)
Lemma words_of_selection (all : list str) :
  forall (start : nat) (K : list (nat * str)),
    StronglySorted lt (map fst K) ->
    Forall (fun ks => start <= fst ks
                      /\ nth_error all (fst ks - start) = Some (snd ks)
                      /\ is_header (snd ks) = true) K ->
    words_of K <= words_of (headers start all).
Proof.
  induction all as [|a rest IH]; intros start K Hs Hf.
  - destruct K as [|[k s] K]; [reflexivity|].
    inversion Hf as [|? ? (_ & Hn & _) _]; subst. cbn [fst snd] in Hn.
    destruct (k - start); discriminate.
  - rewrite headers_cons, words_of_app.
    destruct K as [|[k s] K]; [rewrite words_of_nil; lia|].
    inversion Hf as [|? ? (Hk & Hn & Hh) Hf']; subst. cbn [fst snd] in *.
    cbn [map fst] in Hs. apply StronglySorted_inv in Hs as [Hs' Hlt].
    assert (Hf'' : Forall (fun ks => S start <= fst ks
                             /\ nth_error rest (fst ks - S start) = Some (snd ks)
                             /\ is_header (snd ks) = true) K).
    { rewrite Forall_forall in *. intros ks Hin.
      destruct (Hf' ks Hin) as (H1 & H2 & H3).
      assert (Hgt : k < fst ks) by (apply Hlt; now apply in_map).
      split; [lia|]. split; [|exact H3].
      replace (fst ks - start) with (S (fst ks - S start)) in H2 by lia.
      exact H2. }
    destruct (Nat.eq_dec k start) as [->|Hneq].
    + rewrite Nat.sub_diag in Hn. cbn in Hn. injection Hn as ->.
      rewrite Hh. change ((start, s) :: K) with ([(start, s)] ++ K).
      rewrite words_of_app. specialize (IH (S start) K Hs' Hf'').
      rewrite !words_of_single. lia.
    + assert (Hall : words_of ((k, s) :: K) <= words_of (headers (S start) rest)).
      { apply IH.
        - cbn [map fst]. constructor; assumption.
        - constructor; [|exact Hf'']. cbn [fst snd].
          split; [lia|]. split; [|exact Hh].
          replace (k - start) with (S (k - S start)) in Hn by lia. exact Hn. }
      lia.
Qed.

End WordBudget.

(** X6.  The token estimates of the chunks of a document add up to at
    least the words of its paragraphs that are not headers and at most
    the words of the whole document: no word of an appended paragraph is
    lost, and no word is counted twice. *)
Theorem token_budget (config : ChunkingConfig) (doc_idx : nat) (text : str) :
  words_of (appended_paragraphs text)
  <= total_tokens (yielded_chunks (run_document config doc_idx text))
  /\ total_tokens (yielded_chunks (run_document config doc_idx text))
     <= word_count text.
Proof.
  rewrite run_document_chunks, total_tokens_trace.
  rewrite run_document_trace_appended.
  split; [lia|].
  unfold run_document_trace, appended_paragraphs.
  destruct (negb (truthy text)); [cbn [map List.concat]; rewrite words_of_nil; lia|].
  destruct (document_trace_attached config text) as [Hs Hf].
  assert (Hsel : words_of (List.concat
                             (map attached (Trace.document_trace config text)))
                 <= words_of (headers 0 (split_blank text))).
  { apply words_of_selection; [exact Hs|].
    eapply Forall_impl; [|exact Hf]. intros ks (_ & H2 & H3).
    rewrite Nat.sub_0_r. split; [lia|split; assumption]. }
  pose proof (words_of_partition (split_blank text) 0) as Hpart.
  rewrite <- word_count_join, join_split_blank in Hpart. lia.
Qed.

(** ** How far a chunk can exceed the threshold *)

Section Overshoot.

Variable config : ChunkingConfig.
Variable doc_idx : nat.
Variable w : nat.

Hypothesis size_nonneg : (0 <= size config)%Z.

Let within (f : Trace.flushed) : Prop :=
  (Z.of_nat (n_tokens (Trace.render doc_idx f))
   <= Z.max (size config) (Z.of_nat w) + Z.of_nat w)%Z.

Lemma within_parts (f : Trace.flushed) :
  (Z.of_nat (word_count (Trace.prefix_text f))
   + Z.of_nat (word_count (Trace.body f))
   <= Z.max (size config) (Z.of_nat w) + Z.of_nat w)%Z ->
  within f.
Proof. unfold within. rewrite render_tokens. lia. Qed.

Lemma loop_body_overshoot (ts : Trace.tstate) (i : nat) (p : str) :
  word_count p <= w ->
  word_count (Trace.t_header ts) <= w ->
  (Trace.pending_words ts <= size config)%Z ->
  Forall within (snd (Trace.loop_body config ts i p))
  /\ word_count (Trace.t_header (fst (Trace.loop_body config ts i p))) <= w
  /\ (Trace.pending_words (fst (Trace.loop_body config ts i p))
      <= size config)%Z.
Proof.
  unfold Trace.pending_words, Trace.loop_body. intros Hp Hh Hinv.
  destruct (header_pattern_match (strip p)) as [[g1 g2]|].
  - destruct (truthy (Trace.t_chunk ts) && _);
      cbn [fst snd Trace.t_chunk Trace.t_header].
    + split; [|split; [exact Hp|exact size_nonneg]].
      constructor; [|constructor]. apply within_parts.
      unfold Trace.prefix_text, Trace.body. cbn [Trace.prefix Trace.items].
      destruct (truthy (Trace.t_header ts));
        cbn [Trace.header_item Trace.txt];
        change (word_count []) with 0; lia.
    + split; [constructor|split; [exact Hp|exact Hinv]].
  - destruct ((table_pattern_search p || image_pattern_search p)
              && negb (truthy (Trace.t_chunk ts))
              && truthy (Trace.t_header ts)) eqn:Seed.
    + apply andb_prop in Seed as [Seed _].
      apply andb_prop in Seed as [_ Seed].
      destruct (Trace.t_chunk ts) eqn:Ec; [|discriminate].
      cbn [app map Trace.txt Trace.header_item] in *.
      match goal with |- context [Z.ltb ?a ?b] =>
        destruct (Z.ltb_spec a b) as [Hlt|Hge] end;
        cbn [fst snd Trace.t_chunk Trace.t_header map Trace.txt].
      * split; [|split; [change (word_count []) with 0; lia|exact size_nonneg]].
        constructor; [|constructor]. apply within_parts.
        unfold Trace.prefix_text, Trace.body.
        cbn [Trace.prefix Trace.items map Trace.txt].
        change (join_blank [Trace.txt (Trace.header_item ts); p])
          with (join_blank ([Trace.t_header ts] ++ [p])).
        rewrite word_count_join_snoc.
        change (join_blank [Trace.t_header ts]) with (Trace.t_header ts).
        change (word_count []) with 0. lia.
      * split; [constructor|].
        split; [change (word_count []) with 0; lia|exact Hge].
    + rewrite map_app in *. cbn [map Trace.txt] in *.
      match goal with |- context [Z.ltb ?a ?b] =>
        destruct (Z.ltb_spec a b) as [Hlt|Hge] end;
        cbn [fst snd Trace.t_chunk Trace.t_header map Trace.txt].
      * split; [|split; [exact Hh|exact size_nonneg]].
        constructor; [|constructor]. apply within_parts.
        unfold Trace.prefix_text, Trace.body.
        cbn [Trace.prefix Trace.items]. rewrite map_app. cbn [map Trace.txt].
        rewrite word_count_join_snoc.
        change (word_count []) with 0. lia.
      * split; [constructor|]. split; [exact Hh|].
        rewrite map_app. exact Hge.
Qed.

Lemma for_paragraphs_overshoot (paragraphs : list str) :
  Forall (fun p => word_count p <= w) paragraphs ->
  forall (ts : Trace.tstate) (i : nat),
    word_count (Trace.t_header ts) <= w ->
    (Trace.pending_words ts <= size config)%Z ->
    Forall within (snd (Trace.for_paragraphs config ts i paragraphs))
    /\ word_count
         (Trace.t_header (fst (Trace.for_paragraphs config ts i paragraphs)))
       <= w
    /\ (Trace.pending_words
          (fst (Trace.for_paragraphs config ts i paragraphs))
        <= size config)%Z.
Proof.
  induction 1 as [|p rest Hp Hrest IH]; intros ts i Hh Hinv.
  - cbn. split; [constructor|split; assumption].
  - cbn [Trace.for_paragraphs].
    destruct (loop_body_overshoot ts i p Hp Hh Hinv) as (F1 & H1 & I1).
    destruct (Trace.loop_body config ts i p) as [ts1 y1]. cbn [fst snd] in *.
    destruct (IH ts1 (S i) H1 I1) as (F2 & H2 & I2).
    destruct (Trace.for_paragraphs config ts1 (S i) rest) as [ts2 y2].
    cbn [fst snd] in *. split; [|split; assumption].
    apply Forall_app. split; assumption.
Qed.

Lemma document_trace_overshoot (text : str) :
  Forall (fun p => word_count p <= w) (split_blank text) ->
  Forall within (Trace.document_trace config text).
Proof.
  intros Hw. unfold Trace.document_trace.
  destruct (for_paragraphs_overshoot (split_blank text) Hw
              Trace.initial_tstate 0)
    as (F & Hh & I).
  { apply Nat.le_0_l. }
  { exact size_nonneg. }
  destruct (Trace.for_paragraphs config Trace.initial_tstate 0
              (split_blank text)) as [ts y]. cbn [fst snd] in *.
  apply Forall_app. split; [exact F|].
  unfold Trace.last_chunk. destruct (truthy (Trace.t_chunk ts));
    [|constructor].
  constructor; [|constructor]. apply within_parts.
  unfold Trace.prefix_text, Trace.body, Trace.pending_words in *.
  cbn [Trace.prefix Trace.items].
  destruct (truthy (Trace.t_header ts) && _);
    cbn [Trace.header_item Trace.txt]; change (word_count []) with 0; lia.
Qed.

End Overshoot.

(** X7.  With a [size] that is not negative, if no paragraph of a document
    has more than [w] words, no chunk of the document has more than
    [max(size, w) + w] tokens: a chunk exceeds the threshold by one
    paragraph or one attached header at most. *)
Theorem overshoot_bounded (config : ChunkingConfig) (doc_idx : nat)
    (w : nat) (text : str) :
  (0 <= size config)%Z ->
  Forall (fun p => word_count p <= w) (split_blank text) ->
  Forall (fun c => (Z.of_nat (n_tokens c)
                    <= Z.max (size config) (Z.of_nat w) + Z.of_nat w)%Z)
         (yielded_chunks (run_document config doc_idx text)).
Proof.
  intros Hs Hw. rewrite run_document_chunks. apply Forall_map.
  unfold run_document_trace. destruct (negb (truthy text)); [constructor|].
  apply document_trace_overshoot; assumption.
Qed.

Lemma overshoot_bounded_witness :
  (0 <= size {| size := 3; overlap := 0 |})%Z
  /\ Forall (fun p => word_count p <= 4) (split_blank scenario)
  /\ Forall (fun c => (Z.of_nat (n_tokens c)
                       <= Z.max (size {| size := 3; overlap := 0 |})
                                (Z.of_nat 4) + Z.of_nat 4)%Z)
            (yielded_chunks
               (run_document {| size := 3; overlap := 0 |} 0 scenario)).
Proof.
  assert (H : Forall (fun p => word_count p <= 4) (split_blank scenario)).
  { repeat constructor. }
  split; [discriminate|]. split; [exact H|].
  apply (overshoot_bounded {| size := 3; overlap := 0 |} 0 4 scenario);
    [discriminate|exact H].
Defined.

(** ** Documents without headers are cut, not changed *)

Section Lossless.

Lemma join_blank_app (a b : list str) :
  a <> [] -> b <> [] ->
  join_blank (a ++ b) = join_blank a ++ [NL; NL] ++ join_blank b.
Proof.
  induction a as [|x a IH]; [congruence|]. intros _ Hb.
  destruct a as [|y a'].
  - cbn [app]. now rewrite join_blank_cons.
  - change ((x :: y :: a') ++ b) with (x :: ((y :: a') ++ b)).
    rewrite join_blank_cons by discriminate.
    rewrite IH by (discriminate || assumption).
    rewrite (join_blank_cons x (y :: a')) by discriminate.
    now rewrite <- !app_assoc.
Qed.

Lemma join_blank_concat (L : list (list str)) :
  Forall (fun l => l <> []) L ->
  join_blank (map join_blank L) = join_blank (List.concat L).
Proof.
  induction 1 as [|l L Hl HL IH]; [reflexivity|].
  destruct L as [|m L'].
  - cbn. now rewrite app_nil_r.
  - cbn [map] in *. rewrite join_blank_cons by discriminate.
    rewrite IH. cbn [List.concat] in *.
    rewrite (join_blank_app l (m ++ List.concat L')); [reflexivity|exact Hl|].
    inversion HL as [|? ? Hm _]; subst. destruct m; [congruence|discriminate].
Qed.

Lemma non_headers_all (paragraphs : list str) :
  (forall p, In p paragraphs -> is_header p = false) ->
  forall start, map snd (non_headers start paragraphs) = paragraphs.
Proof.
  induction paragraphs as [|p rest IH]; intros Hplain start; [reflexivity|].
  rewrite non_headers_cons, (Hplain p) by now left.
  cbn. f_equal. apply IH. intros q Hq. apply Hplain. now right.
Qed.

Lemma items_all_appended (f : Trace.flushed) :
  attached f = [] ->
  Trace.prefix f = None
  /\ map Trace.txt (Trace.items f) = map snd (Trace.appended f).
Proof.
  unfold attached, Trace.appended, seeded. intros E.
  apply app_eq_nil in E as [E1 E2]. split.
  - destruct (Trace.prefix f); [discriminate|reflexivity].
  - induction (Trace.items f) as [|it l IH]; [reflexivity|].
    cbn [filter map] in *. destruct (Trace.from_header it); [discriminate|].
    cbn. f_equal. auto.
Qed.

Lemma concat_nil_all {A : Type} (L : list (list A)) :
  List.concat L = [] -> Forall (fun l => l = []) L.
Proof.
  induction L as [|l L IH]; [constructor|]. cbn. intros E.
  apply app_eq_nil in E as [E1 E2]. constructor; auto.
Qed.

End Lossless.

(** X8.  For a non-empty document without header paragraphs, the texts of
    its chunks, joined by blank lines, are the document: such a document
    is cut between paragraphs and nothing is added, dropped or moved. *)
Theorem plain_document_lossless (config : ChunkingConfig) (doc_idx : nat)
    (text : str) :
  text <> [] ->
  (forall p, In p (split_blank text) -> is_header p = false) ->
  join_blank (map text_chunk (yielded_chunks (run_document config doc_idx text)))
  = text.
Proof.
  intros Hne Hplain.
  rewrite run_document_chunks, map_map.
  pose proof (run_document_trace_appended config text) as Happ.
  pose proof (run_document_trace_nonempty config text) as Hnonempty.
  unfold run_document_trace, appended_paragraphs in *.
  destruct text as [|c r] eqn:Et; [congruence|]. rewrite <- Et in *.
  replace (negb (truthy text)) with false in * by (subst text; reflexivity).
  assert (Hnone : List.concat (map attached (Trace.document_trace config text))
                  = []).
  { destruct (document_trace_attached config text) as [_ Hf].
    destruct (List.concat (map attached (Trace.document_trace config text)))
      as [|ks K]; [reflexivity|].
    inversion Hf as [|? ? (_ & Hn & Hh) _]; subst.
    apply nth_error_In in Hn. rewrite (Hplain _ Hn) in Hh. discriminate. }
  apply concat_nil_all in Hnone. rewrite Forall_map in Hnone.
  assert (E : map (fun f => text_chunk (Trace.render doc_idx f))
                  (Trace.document_trace config text)
              = map join_blank
                    (map (fun f => map snd (Trace.appended f))
                         (Trace.document_trace config text))).
  { rewrite map_map. apply map_ext_in. intros f Hf.
    rewrite Forall_forall in Hnone.
    destruct (items_all_appended f (Hnone f Hf)) as [Hp Hi].
    unfold Trace.render, Trace.body. cbn [text_chunk]. now rewrite Hp, Hi. }
  rewrite E, join_blank_concat.
  - rewrite <- map_map, <- concat_map, Happ.
    rewrite non_headers_all by exact Hplain. apply join_split_blank.
  - apply Forall_map. eapply Forall_impl; [|exact Hnonempty].
    intros f Hf Hnil. apply map_eq_nil in Hnil. contradiction.
Qed.

Lemma plain_document_lossless_witness :
  two_paragraphs <> []
  /\ (forall p, In p (split_blank two_paragraphs) -> is_header p = false)
  /\ join_blank (map text_chunk
                     (yielded_chunks
                        (run_document {| size := 1; overlap := 0 |} 0
                           two_paragraphs)))
     = two_paragraphs.
Proof.
  assert (H : forall p, In p (split_blank two_paragraphs) ->
                        is_header p = false).
  { intros p [<-|[<-|[]]]; reflexivity. }
  split; [discriminate|]. split; [exact H|].
  apply (plain_document_lossless {| size := 1; overlap := 0 |} 0
           two_paragraphs); [discriminate|exact H].
Defined.

(** ** Facts about the PDF loader *)

Example get_category_name_samples :
  get_category_name 5 = lit "table"
  /\ get_category_name 10 = lit "unknown_10"
  /\ get_category_name (-1) = lit "unknown_-1".
Proof. repeat split. Qed.

(** *** Output directory and document id *)

Section DocumentId.

Lemma eqb_str_refl (s : str) : eqb_str s s = true.
Proof. unfold eqb_str. destruct (list_eq_dec N.eq_dec s s); congruence. Qed.

Lemma eqb_str_eq (a b : str) : eqb_str a b = true -> a = b.
Proof.
  unfold eqb_str. destruct (list_eq_dec N.eq_dec a b); [auto|discriminate].
Qed.

Lemma endswith_app (a suffix : str) : endswith (a ++ suffix) suffix = true.
Proof.
  unfold endswith. rewrite length_app.
  replace (List.length a + List.length suffix - List.length suffix)
    with (List.length a) by lia.
  rewrite skipn_app, skipn_all, Nat.sub_diag. cbn [skipn app].
  rewrite eqb_str_refl, andb_true_r. apply Nat.leb_le. lia.
Qed.

Lemma endswith_suffix (s suffix : str) :
  endswith s suffix = true -> exists a, s = a ++ suffix.
Proof.
  unfold endswith. intros H. apply andb_prop in H as [_ H].
  apply eqb_str_eq in H.
  exists (firstn (List.length s - List.length suffix) s).
  transitivity (firstn (List.length s - List.length suffix) s
                ++ skipn (List.length s - List.length suffix) s);
    [symmetry; apply firstn_skipn|now rewrite H].
Qed.

Lemma strip_prefix_some (l s r : str) :
  strip_prefix l s = Some r -> s = l ++ r.
Proof.
  revert s. induction l as [|a l IH]; cbn; intros s H.
  - now injection H as ->.
  - destruct s as [|c s]; [discriminate|].
    destruct (N.eqb_spec a c) as [->|]; [|discriminate].
    f_equal. auto.
Qed.

Lemma strip_prefix_app (l r : str) : strip_prefix l (l ++ r) = Some r.
Proof.
  induction l as [|a l IH]; cbn; [reflexivity|]. now rewrite N.eqb_refl.
Qed.

Lemma count_prefix_firstn (p : char -> bool) (s : str) (n : nat) :
  n <= count_prefix p s -> forallb p (firstn n s) = true.
Proof.
  revert n. induction s as [|c r IH]; intros n Hn.
  - now rewrite firstn_nil.
  - destruct n as [|n]; [reflexivity|]. cbn in *.
    destruct (p c); [|lia]. cbn. apply IH. lia.
Qed.

Lemma count_prefix_app_stop (p : char -> bool) (a b : str) :
  forallb p a = true ->
  match b with [] => True | c :: _ => p c = false end ->
  count_prefix p (a ++ b) = List.length a.
Proof.
  intros Ha Hb. induction a as [|c a IH]; cbn in *.
  - destruct b as [|c b]; [reflexivity|]. cbn. now rewrite Hb.
  - apply andb_prop in Ha as [Hc Ha]. rewrite Hc. f_equal. auto.
Qed.

Lemma at_string_end_cases (t : str) :
  at_string_end t = true -> t = [] \/ t = [NL].
Proof.
  destruct t as [|c [|c' t]]; cbn; intros H; [now left| |discriminate].
  right. apply N.eqb_eq in H. now subst.
Qed.

(** What a successful attempt has matched. *)
Lemma id_pattern_at_some (s g : str) :
  id_pattern_at s = Some g ->
  g <> [] /\ forallb not_slash g = true
  /\ exists e, s = lit "/" ++ g ++ lit "/auto" ++ e /\ (e = [] \/ e = [NL]).
Proof.
  unfold id_pattern_at.
  destruct (strip_prefix (lit "/") s) as [r|] eqn:Es; [|discriminate].
  apply strip_prefix_some in Es. intros H.
  apply greedy_some in H as (n & Hn & H).
  destruct (strip_prefix (lit "/auto") (skipn n r)) as [t|] eqn:Et;
    [|discriminate].
  destruct (at_string_end t) eqn:Ee; [|discriminate]. injection H as <-.
  apply strip_prefix_some in Et. apply at_string_end_cases in Ee.
  split; [|split].
  - intros E. apply (f_equal (@List.length char)) in E.
    rewrite length_firstn in E. cbn in E.
    pose proof (count_prefix_le not_slash r). lia.
  - apply count_prefix_firstn. lia.
  - exists t. split; [|exact Ee].
    rewrite Es. f_equal. rewrite <- Et. symmetry. apply firstn_skipn.
Qed.

Lemma search_first_some {A : Type} (m : str -> option A) (s : str) (x : A) :
  search_first m s = Some x -> exists pre t, s = pre ++ t /\ m t = Some x.
Proof.
  induction s as [|c r IH]; cbn.
  - destruct (m []) eqn:E; [|discriminate]. intros [= ->]. now exists [], [].
  - destruct (m (c :: r)) eqn:E.
    + intros [= ->]. now exists [], (c :: r).
    + intros H. destruct (IH H) as (pre & t & -> & Ht).
      now exists (c :: pre), t.
Qed.

Lemma strip_prefix_self (l : str) : strip_prefix l l = Some [].
Proof. rewrite <- (app_nil_r l) at 2. apply strip_prefix_app. Qed.

Lemma id_pattern_at_tail (name : str) :
  name <> [] -> forallb not_slash name = true ->
  id_pattern_at (lit "/" ++ name ++ lit "/auto") = Some name.
Proof.
  intros Hne Hname. unfold id_pattern_at.
  rewrite strip_prefix_app.
  rewrite count_prefix_app_stop by (assumption || reflexivity).
  apply greedy_top.
  - destruct name; [congruence|cbn; lia].
  - rewrite skipn_app, skipn_all, Nat.sub_diag.
    change (skipn 0 (lit "/auto")) with (lit "/auto"). cbn [app].
    rewrite strip_prefix_self. cbn [at_string_end].
    rewrite firstn_app, firstn_all, Nat.sub_diag. cbn [firstn].
    now rewrite app_nil_r.
Qed.

Lemma id_pattern_at_inside (q name : str) :
  q <> [] -> forallb not_slash name = true ->
  id_pattern_at (q ++ lit "/" ++ name ++ lit "/auto") = None.
Proof.
  intros Hq Hname.
  destruct (id_pattern_at (q ++ lit "/" ++ name ++ lit "/auto")) as [g|] eqn:E;
    [|reflexivity].
  exfalso. apply id_pattern_at_some in E as (_ & Hg & e & Es & [-> | ->]).
  - rewrite app_nil_r in Es.
    rewrite !app_assoc in Es. apply app_inv_tail in Es.
    destruct q as [|c q]; [congruence|].
    cbn in Es. injection Es as -> <-.
    rewrite !forallb_app in Hg. cbn in Hg.
    rewrite andb_false_r in Hg. discriminate.
  - change (lit "/auto") with (lit "/aut" ++ [111%N]) in Es at 1.
    rewrite !app_assoc in Es. apply app_inj_tail in Es as [_ Es].
    discriminate.
Qed.

Lemma search_first_here {A : Type} (m : str -> option A) (s : str) (x : A) :
  m s = Some x -> search_first m s = Some x.
Proof. intros H. destruct s; cbn; now rewrite H. Qed.

Lemma search_first_next {A : Type} (m : str -> option A) (c : char) (r : str) :
  m (c :: r) = None -> search_first m (c :: r) = search_first m r.
Proof. intros H. cbn. now rewrite H. Qed.

Lemma id_pattern_search_tail (pre name : str) :
  name <> [] -> forallb not_slash name = true ->
  id_pattern_search (pre ++ lit "/" ++ name ++ lit "/auto") = Some name.
Proof.
  intros Hne Hname. unfold id_pattern_search.
  induction pre as [|c pre IH].
  - apply search_first_here. now apply id_pattern_at_tail.
  - change ((c :: pre) ++ lit "/" ++ name ++ lit "/auto")
      with (c :: (pre ++ lit "/" ++ name ++ lit "/auto")).
    rewrite search_first_next; [exact IH|].
    apply (id_pattern_at_inside (c :: pre) name); [discriminate|assumption].
Qed.

Lemma slashes_app (a b : str) : slashes (a ++ b) = slashes a + slashes b.
Proof. unfold slashes. now rewrite filter_app, length_app. Qed.

Lemma slashes_none (s : str) : forallb not_slash s = true -> slashes s = 0.
Proof.
  unfold slashes. induction s as [|c s IH]; cbn; [reflexivity|].
  intros H. apply andb_prop in H as [Hc Hs]. rewrite Hc. cbn. auto.
Qed.

End DocumentId.

(** X9.  The output directory that [load_pdf] and [process_pdf_file] go on
    with always ends with [/auto], and the step that makes it so changes
    nothing when applied again. *)
Theorem auto_output_dir_normal (output_dir : str) :
  endswith (auto_output_dir output_dir) (lit "/auto") = true
  /\ auto_output_dir (auto_output_dir output_dir) = auto_output_dir output_dir.
Proof.
  unfold auto_output_dir at 1 3 4.
  destruct (endswith output_dir (lit "/auto")) eqn:E; cbn [negb].
  - split; [exact E|]. unfold auto_output_dir. now rewrite E.
  - split; [apply endswith_app|].
    unfold auto_output_dir. now rewrite endswith_app.
Qed.

(** X10.  When the output directory, made to end with [/auto], is
    [<anything>/<name>/auto] with a non-empty [name] free of slashes, the
    document id is [name]. *)
Theorem doc_id_is_directory_name (output_dir path pre name : str) :
  auto_output_dir output_dir = pre ++ lit "/" ++ name ++ lit "/auto" ->
  name <> [] ->
  forallb not_slash name = true ->
  load_doc_id output_dir path = name.
Proof.
  intros E Hne Hname. unfold load_doc_id. rewrite E.
  now rewrite id_pattern_search_tail.
Qed.

Lemma doc_id_is_directory_name_witness :
  auto_output_dir (lit "/tmp/17_be34") = lit "/tmp" ++ lit "/" ++ lit "17_be34" ++ lit "/auto"
  /\ lit "17_be34" <> []
  /\ forallb not_slash (lit "17_be34") = true
  /\ load_doc_id (lit "/tmp/17_be34") (lit "in/a.pdf") = lit "17_be34".
Proof.
  split; [reflexivity|]. split; [discriminate|]. split; [reflexivity|].
  apply (doc_id_is_directory_name (lit "/tmp/17_be34") (lit "in/a.pdf")
           (lit "/tmp") (lit "17_be34")); [reflexivity|discriminate|reflexivity].
Defined.

(** X11.  A document id that is not the path of the file is never empty
    and holds no slash: it is the path component right before the final
    [/auto] of the output directory (a newline may end the directory). *)
Theorem doc_id_sound (output_dir path : str) :
  load_doc_id output_dir path <> path ->
  load_doc_id output_dir path <> []
  /\ forallb not_slash (load_doc_id output_dir path) = true
  /\ exists pre e,
       auto_output_dir output_dir
       = pre ++ lit "/" ++ load_doc_id output_dir path ++ lit "/auto" ++ e
       /\ (e = [] \/ e = [NL]).
Proof.
  unfold load_doc_id.
  destruct (id_pattern_search (auto_output_dir output_dir)) as [g|] eqn:E;
    [|congruence].
  intros _. apply search_first_some in E as (pre & t & Et & Hm).
  apply id_pattern_at_some in Hm as (Hne & Hg & e & -> & He).
  split; [exact Hne|]. split; [exact Hg|]. exists pre, e. split; assumption.
Qed.

Lemma doc_id_sound_witness :
  load_doc_id (lit "/tmp/17_be34") (lit "in/a.pdf") <> lit "in/a.pdf"
  /\ load_doc_id (lit "/tmp/17_be34") (lit "in/a.pdf") <> []
  /\ forallb not_slash (load_doc_id (lit "/tmp/17_be34") (lit "in/a.pdf")) = true
  /\ exists pre e,
       auto_output_dir (lit "/tmp/17_be34")
       = pre ++ lit "/" ++ load_doc_id (lit "/tmp/17_be34") (lit "in/a.pdf")
         ++ lit "/auto" ++ e
       /\ (e = [] \/ e = [NL]).
Proof.
  split; [discriminate|].
  apply (doc_id_sound (lit "/tmp/17_be34") (lit "in/a.pdf")). discriminate.
Defined.

(** X12.  When the output directory holds no slash (a relative directory
    of one component, or the empty string), no id is found in it and the
    document id is the path of the file. *)
Theorem doc_id_falls_back_to_path (output_dir path : str) :
  forallb not_slash output_dir = true ->
  load_doc_id output_dir path = path.
Proof.
  intros Hfree. unfold load_doc_id.
  destruct (id_pattern_search (auto_output_dir output_dir)) as [g|] eqn:E;
    [|reflexivity].
  exfalso. apply search_first_some in E as (pre & t & Et & Hm).
  apply id_pattern_at_some in Hm as (_ & _ & e & -> & _).
  apply (f_equal slashes) in Et.
  assert (Hn : auto_output_dir output_dir = output_dir ++ lit "/auto").
  { unfold auto_output_dir.
    destruct (endswith output_dir (lit "/auto")) eqn:Ee; [|reflexivity].
    apply endswith_suffix in Ee as (a & Ea). subst output_dir.
    rewrite forallb_app in Hfree. apply andb_prop in Hfree as [_ Hfree].
    discriminate. }
  rewrite Hn, !slashes_app, (slashes_none _ Hfree) in Et.
  change (slashes (lit "/auto")) with 1 in Et.
  change (slashes (lit "/")) with 1 in Et. lia.
Qed.

Lemma doc_id_falls_back_to_path_witness :
  forallb not_slash (lit "out") = true
  /\ load_doc_id (lit "out") (lit "in/a.pdf") = lit "in/a.pdf".
Proof.
  split; [reflexivity|].
  apply (doc_id_falls_back_to_path (lit "out") (lit "in/a.pdf")). reflexivity.
Defined.

(** *** Category names *)

Section CategoryNames.

Lemma lit_inj (a b : string) : lit a = lit b -> a = b.
Proof.
  unfold lit. intros H.
  apply (f_equal (map ascii_of_N)) in H. rewrite !map_map in H.
  rewrite !(map_ext _ (fun x => x) ascii_N_embedding), !map_id in H.
  apply (f_equal string_of_list_ascii) in H.
  now rewrite !string_of_list_ascii_of_string in H.
Qed.

Lemma to_int_proper (z : Z) :
  Z.to_int z <> Decimal.Pos Decimal.Nil
  /\ Z.to_int z <> Decimal.Neg Decimal.Nil.
Proof.
  split; intros H; pose proof (f_equal Z.of_int H) as E;
    rewrite DecimalZ.of_to in E; cbn in E; subst z;
    vm_compute in H; discriminate.
Qed.

Lemma str_of_int_inj (a b : Z) : str_of_int a = str_of_int b -> a = b.
Proof.
  unfold str_of_int. intros H. apply lit_inj in H.
  apply (f_equal DecimalString.NilZero.int_of_string) in H.
  destruct (to_int_proper a) as [Ha1 Ha2], (to_int_proper b) as [Hb1 Hb2].
  rewrite !DecimalString.NilZero.isi in H by assumption.
  injection H as H. now apply DecimalZ.to_int_inj.
Qed.

Lemma int_dict_get_in (k : Z) (d : list (Z * str)) (v : str) :
  int_dict_get k d = Some v -> In (k, v) d.
Proof.
  induction d as [|[k' v'] d IH]; cbn; [discriminate|].
  destruct (Z.eqb_spec k k') as [->|].
  - intros [= ->]. now left.
  - intros H. right. auto.
Qed.

Lemma categories_names_distinct :
  Forall (fun kv => category_of_name (snd kv) categories = Some (fst kv))
         categories.
Proof. repeat constructor. Qed.

Lemma categories_names_known :
  Forall (fun kv => forall t, snd kv <> lit "unknown_" ++ t) categories.
Proof. repeat constructor; intros t H; vm_compute in H; discriminate. Qed.

End CategoryNames.

(** X13.  Two integer category ids with the same name are the same id:
    the names listed in [categories] are pairwise different, none of them
    starts with [unknown_], and the decimal writing that follows
    [unknown_] tells the other ids apart. *)
Theorem get_category_name_injective (a b : Z) :
  get_category_name a = get_category_name b -> a = b.
Proof.
  unfold get_category_name.
  destruct (int_dict_get a categories) as [na|] eqn:Ea,
           (int_dict_get b categories) as [nb|] eqn:Eb; intros H.
  - subst nb. apply int_dict_get_in in Ea, Eb.
    pose proof categories_names_distinct as D. rewrite Forall_forall in D.
    pose proof (D _ Ea) as Da. pose proof (D _ Eb) as Db.
    cbn [fst snd] in *. congruence.
  - apply int_dict_get_in in Ea.
    pose proof categories_names_known as K. rewrite Forall_forall in K.
    exfalso. exact (K _ Ea _ H).
  - apply int_dict_get_in in Eb.
    pose proof categories_names_known as K. rewrite Forall_forall in K.
    exfalso. exact (K _ Eb _ (eq_sym H)).
  - apply app_inv_head in H. now apply str_of_int_inj.
Qed.

Lemma get_category_name_injective_witness :
  get_category_name 5 = get_category_name (2 + 3)
  /\ (5 = 2 + 3)%Z.
Proof.
  split; [reflexivity|].
  apply (get_category_name_injective 5 (2 + 3)). reflexivity.
Defined.

(** *** Text of a parsed block *)

Section BlockText.

Lemma spaced_app (a b : list str) : spaced (a ++ b) = spaced a ++ spaced b.
Proof. unfold spaced. now rewrite map_app, concat_app. Qed.

Lemma span_texts_cons (sp : span) (spans : list span) :
  span_texts (sp :: spans) = span_texts [sp] ++ span_texts spans.
Proof. unfold span_texts. cbn [flat_map]. now rewrite app_nil_r. Qed.

Lemma span_body_view (text : str) (j : json) (sp : span) :
  span_view j sp ->
  span_body text j = Some (text ++ spaced (span_texts [sp])).
Proof.
  intros (d & -> & Ht & Hc).
  unfold span_body, span_texts, spaced.
  cbn [py_get py_contains py_getitem flat_map app]. rewrite Ht, Hc.
  cbn [is_text]. destruct (eqb_str (span_type sp) (lit "text")).
  - destruct (span_content sp) as [c|];
      cbn [option_map is_some map List.concat app];
      now rewrite ?app_nil_r.
  - cbn [map List.concat app]. now rewrite app_nil_r.
Qed.

Lemma for_each_spans (js : list json) (spans : list span) :
  Forall2 span_view js spans ->
  forall text,
    for_each span_body text js = Some (text ++ spaced (span_texts spans)).
Proof.
  induction 1 as [|j sp js spans Hj _ IH]; intros text.
  - cbn. now rewrite app_nil_r.
  - cbn [for_each]. rewrite (span_body_view text j sp Hj), IH.
    rewrite (span_texts_cons sp spans), spaced_app, <- app_assoc.
    reflexivity.
Qed.

Lemma line_body_view (text : str) (j : json) (spans : list span) :
  line_view j spans ->
  line_body text j = Some (text ++ spaced (span_texts spans)).
Proof.
  intros (d & js & -> & Hs & Hv).
  unfold line_body. cbn [py_contains py_getitem]. rewrite Hs.
  cbn [is_some py_iter]. now apply for_each_spans.
Qed.

Lemma text_contents_cons (spans : list span) (lines : list (list span)) :
  text_contents (spans :: lines) = span_texts spans ++ text_contents lines.
Proof.
  unfold text_contents, span_texts. cbn [List.concat].
  now rewrite flat_map_app.
Qed.

Lemma for_each_lines (js : list json) (lines : list (list span)) :
  Forall2 line_view js lines ->
  forall text,
    for_each line_body text js = Some (text ++ spaced (text_contents lines)).
Proof.
  induction 1 as [|j spans js lines Hj _ IH]; intros text.
  - cbn. now rewrite app_nil_r.
  - cbn [for_each]. rewrite (line_body_view text j spans Hj), IH.
    rewrite text_contents_cons, spaced_app, <- app_assoc. reflexivity.
Qed.

Lemma extract_view (block : json) (lines : list (list span)) :
  block_view block lines ->
  extract_text_from_block block
  = Some (strip (spaced (text_contents lines))).
Proof.
  intros (d & js & -> & Hl & Hv).
  unfold extract_text_from_block. cbn [py_contains py_getitem]. rewrite Hl.
  cbn [is_some py_iter]. now rewrite (for_each_lines js lines Hv).
Qed.

(** Trimming takes no word away. *)
Lemma word_count_space_cons (c : char) (s : str) :
  isspace c = true -> word_count (c :: s) = word_count s.
Proof. intros H. unfold word_count. cbn [split_ws]. now rewrite H. Qed.

Lemma word_count_lstrip (s : str) : word_count (lstrip s) = word_count s.
Proof.
  induction s as [|c r IH]; [reflexivity|]. cbn [lstrip].
  destruct (isspace c) eqn:E; [|reflexivity].
  now rewrite word_count_space_cons.
Qed.

Lemma lstrip_split (s : str) :
  exists pre, s = pre ++ lstrip s /\ all_space pre.
Proof.
  induction s as [|c r (pre & E & Hpre)]; [now exists []|].
  cbn [lstrip]. destruct (isspace c) eqn:Ec.
  - exists (c :: pre). split; [cbn; now f_equal|].
    unfold all_space in *. cbn. now rewrite Ec.
  - now exists [].
Qed.

Lemma all_space_rev (s : str) : all_space s -> all_space (rev s).
Proof.
  unfold all_space. rewrite !forallb_forall. intros H x Hx.
  apply H. now apply in_rev.
Qed.

Lemma word_count_rstrip (s : str) : word_count (rstrip s) = word_count s.
Proof.
  unfold rstrip. destruct (lstrip_split (rev s)) as (pre & E & Hpre).
  apply (f_equal (@rev char)) in E. rewrite rev_involutive, rev_app_distr in E.
  rewrite E at 2. rewrite word_count_app.
  - rewrite (word_count_all_space (rev pre)) by now apply all_space_rev.
    lia.
  - apply all_space_rev in Hpre. unfold all_space in Hpre.
    destruct (rev pre) as [|c t]; [exact I|].
    cbn in Hpre. apply andb_prop in Hpre. tauto.
Qed.

Lemma word_count_strip (s : str) : word_count (strip s) = word_count s.
Proof. unfold strip. now rewrite word_count_rstrip, word_count_lstrip. Qed.

Lemma word_count_spaced (contents : list str) :
  word_count (spaced contents) = list_sum (map word_count contents).
Proof.
  unfold spaced. induction contents as [|c l IH]; [reflexivity|].
  cbn [map List.concat]. rewrite <- app_assoc, word_count_app by reflexivity.
  change (lit " " ++ List.concat (map (fun c0 => c0 ++ lit " ") l))
    with (32%N :: List.concat (map (fun c0 => c0 ++ lit " ") l)).
  rewrite word_count_space_cons by reflexivity. rewrite IH.
  cbn -[word_count]. reflexivity.
Qed.

(** Trimming leaves no whitespace at the start. *)
Lemma lstrip_strip (s : str) : lstrip (strip s) = strip s.
Proof.
  unfold strip, rstrip.
  pose proof (lstrip_head s) as H.
  destruct (lstrip s) as [|c t] eqn:E; [reflexivity|].
  destruct (lstrip_split (rev (c :: t))) as (pre & Epre & Hpre).
  apply (f_equal (@rev char)) in Epre.
  rewrite rev_involutive, rev_app_distr in Epre.
  destruct (rev (lstrip (rev (c :: t)))) as [|d u] eqn:Er; [reflexivity|].
  cbn [app] in Epre. injection Epre as <- _. cbn [lstrip]. now rewrite H.
Qed.

(** A loop stops at the first element on which its body raises. *)
Lemma for_each_stops {S X : Type} (body : S -> X -> option S)
    (before after : list X) (bad : X) (acc acc' : S) :
  for_each body acc before = Some acc' ->
  body acc' bad = None ->
  for_each body acc (before ++ bad :: after) = None.
Proof.
  revert acc. induction before as [|x l IH]; cbn; intros acc H Hbad.
  - injection H as ->. now rewrite Hbad.
  - destruct (body acc x); [|discriminate]. auto.
Qed.

Lemma sample_block_view : block_view sample_block sample_lines.
Proof.
  eexists _, _. split; [reflexivity|]. split; [reflexivity|].
  constructor; [|constructor].
  eexists _, _. split; [reflexivity|]. split; [reflexivity|].
  repeat constructor; eexists; (split; [reflexivity|]); split; reflexivity.
Qed.

End BlockText.

(** X14.  On a block made of lines of spans (dictionaries with a list
    under [lines], a list under [spans], a string under [type] and a
    string or nothing under [content], whatever other keys they have),
    [extract_text_from_block] does not raise and returns the contents of
    the spans of type [text], in reading order, each followed by one
    space, the whole trimmed; spans of another type and spans without
    content add nothing. *)
Theorem extract_text_of_block (block : json) (lines : list (list span)) :
  block_view block lines ->
  extract_text_from_block block
  = Some (strip (spaced (text_contents lines))).
Proof. apply extract_view. Qed.

Lemma extract_text_of_block_witness :
  block_view sample_block sample_lines
  /\ extract_text_from_block sample_block
     = Some (strip (spaced (text_contents sample_lines))).
Proof.
  split; [exact sample_block_view|].
  apply (extract_text_of_block sample_block sample_lines).
  exact sample_block_view.
Defined.

(** X15.  The text extracted from such a block has exactly as many words
    as the contents of its text spans together, and neither starts nor
    ends with whitespace. *)
Theorem extract_text_keeps_words (block : json) (lines : list (list span)) :
  block_view block lines ->
  exists text,
    extract_text_from_block block = Some text
    /\ word_count text = list_sum (map word_count (text_contents lines))
    /\ stripped text
    /\ lstrip text = text.
Proof.
  intros Hv. exists (strip (spaced (text_contents lines))).
  split; [now apply extract_view|]. split; [|split].
  - now rewrite word_count_strip, word_count_spaced.
  - apply strip_stripped.
  - apply lstrip_strip.
Qed.

Lemma extract_text_keeps_words_witness :
  block_view sample_block sample_lines
  /\ exists text,
       extract_text_from_block sample_block = Some text
       /\ word_count text
          = list_sum (map word_count (text_contents sample_lines))
       /\ stripped text
       /\ lstrip text = text.
Proof.
  split; [exact sample_block_view|].
  apply (extract_text_keeps_words sample_block sample_lines).
  exact sample_block_view.
Defined.

(** X16.  A span of type [text] whose content is not a string (a JSON
    [null], a number, a list) makes [extract_text_from_block] raise,
    whatever comes after it in the block, when the lines and spans before
    it are lines and spans as above. *)
Theorem extract_text_raises_on_bad_content
    (block line bad : list (str * json))
    (before_lines after_lines before_spans after_spans : list json)
    (lines : list (list span)) (spans : list span) (content : json) :
  dict_lookup (lit "lines") block
  = Some (JList (before_lines ++ JDict line :: after_lines)) ->
  Forall2 line_view before_lines lines ->
  dict_lookup (lit "spans") line
  = Some (JList (before_spans ++ JDict bad :: after_spans)) ->
  Forall2 span_view before_spans spans ->
  dict_lookup (lit "type") bad = Some (JStr (lit "text")) ->
  dict_lookup (lit "content") bad = Some content ->
  not_a_string content ->
  extract_text_from_block (JDict block) = None.
Proof.
  intros Hl Hlines Hs Hspans Ht Hc Hbad.
  unfold extract_text_from_block. cbn [py_contains py_getitem]. rewrite Hl.
  cbn [is_some py_iter].
  rewrite (for_each_stops line_body _ _ _ _ _
             (for_each_lines before_lines lines Hlines [])); [reflexivity|].
  unfold line_body. cbn [py_contains py_getitem]. rewrite Hs.
  cbn [is_some py_iter].
  apply (for_each_stops span_body _ _ _ _ _
           (for_each_spans before_spans spans Hspans _)).
  unfold span_body. cbn [py_get py_contains py_getitem]. rewrite Ht, Hc.
  change (is_text (JStr (lit "text"))) with true. cbn [is_some].
  destruct content; try reflexivity. contradiction.
Qed.

Lemma extract_text_raises_on_bad_content_witness :
  dict_lookup (lit "lines")
    [(lit "lines",
      JList ([] ++ JDict
                     [(lit "spans",
                       JList ([] ++ JDict [(lit "type", JStr (lit "text"));
                                           (lit "content", JNull)] :: []))]
                   :: []))]
  = Some (JList ([] ++ JDict
                         [(lit "spans",
                           JList ([] ++ JDict [(lit "type", JStr (lit "text"));
                                               (lit "content", JNull)] :: []))]
                       :: []))
  /\ not_a_string JNull
  /\ extract_text_from_block
       (JDict
          [(lit "lines",
            JList ([] ++ JDict
                           [(lit "spans",
                             JList ([] ++ JDict [(lit "type", JStr (lit "text"));
                                                 (lit "content", JNull)] :: []))]
                         :: []))])
     = None.
Proof.
  split; [reflexivity|]. split; [exact I|].
  apply (extract_text_raises_on_bad_content
           [(lit "lines",
             JList ([] ++ JDict
                            [(lit "spans",
                              JList ([] ++ JDict [(lit "type", JStr (lit "text"));
                                                  (lit "content", JNull)] :: []))]
                          :: []))]
           [(lit "spans",
             JList ([] ++ JDict [(lit "type", JStr (lit "text"));
                                 (lit "content", JNull)] :: []))]
           [(lit "type", JStr (lit "text")); (lit "content", JNull)]
           [] [] [] [] [] [] JNull);
    try reflexivity; try constructor.
Defined.

(** *** Structured information *)

Section StructuredInfo.

Variable repr : json -> str.

(** What [structure] is at every point of the loops. *)
Let well_formed (structure : list (str * json)) : Prop :=
  exists pages,
    structure = (lit "has_content", JBool true) :: pages
    /\ Forall page_entry pages.

Lemma dict_set_pages (pages : list (str * json)) (k : str) (v : json) :
  Forall page_entry pages -> page_entry (k, v) ->
  Forall page_entry (dict_set pages k v) /\ dict_set pages k v <> [].
Proof.
  intros Hp Hkv. induction Hp as [|[k' v'] rest Hk' Hrest IH]; cbn.
  - split; [repeat constructor; assumption|discriminate].
  - destruct (eqb_str k k') eqn:E.
    + apply eqb_str_eq in E. subst k'. split; [|discriminate].
      constructor; [|assumption].
      destruct Hkv as (t & a & b & c & Hk & Hv). exists t, a, b, c. auto.
    + split; [|discriminate]. constructor; [assumption|apply IH].
Qed.

Lemma dict_set_length (d : list (str * json)) (k : str) (v : json) :
  List.length d <= List.length (dict_set d k v).
Proof.
  induction d as [|[k' v'] rest IH]; cbn [dict_set List.length]; [lia|].
  destruct (eqb_str k k'); cbn [List.length]; lia.
Qed.

Lemma page_counts_entry (page_info counts : json) (t : str) :
  page_counts page_info = Some counts -> page_entry (lit "page_" ++ t, counts).
Proof.
  unfold page_counts.
  destruct (py_get_default page_info (lit "para_blocks") (JList []));
    [|discriminate].
  destruct (py_len _) as [a|]; [|discriminate].
  destruct (py_get_default page_info (lit "images") (JList []));
    [|discriminate].
  destruct (py_len _) as [b|]; [|discriminate].
  destruct (py_get_default page_info (lit "tables") (JList []));
    [|discriminate].
  destruct (py_len _) as [c|]; [|discriminate].
  intros [= <-]. exists t, a, b, c. split; reflexivity.
Qed.

Lemma page_body_well_formed (structure structure' : list (str * json))
    (page_info : json) :
  well_formed structure ->
  page_body repr structure page_info = Some structure' ->
  well_formed structure'
  /\ List.length structure <= List.length structure'.
Proof.
  intros (pages & -> & Hp). unfold page_body.
  destruct (py_contains (lit "page_idx") page_info) as [[|]|];
    [|intros [= <-]; split; [now exists pages|lia]|discriminate].
  destruct (py_getitem page_info (lit "page_idx")) as [idx|]; [|discriminate].
  destruct (page_counts page_info) as [counts|] eqn:Ec; [|discriminate].
  intros [= <-].
  change (112%N :: 97%N :: 103%N :: 101%N :: 95%N :: py_format repr idx)
    with (lit "page_" ++ py_format repr idx).
  destruct (dict_set_pages pages (lit "page_" ++ py_format repr idx) counts Hp)
    as [H1 H2]; [now apply (page_counts_entry page_info)|].
  split; [eexists; split; [reflexivity|exact H1]|].
  cbn [List.length]. apply le_n_S, dict_set_length.
Qed.

Lemma for_each_invariant {S X : Type} (body : S -> X -> option S)
    (P : S -> Prop) (size_of : S -> nat) :
  (forall acc x acc', P acc -> body acc x = Some acc' ->
                      P acc' /\ size_of acc <= size_of acc') ->
  forall l acc acc',
    P acc -> for_each body acc l = Some acc' ->
    P acc' /\ size_of acc <= size_of acc'.
Proof.
  intros Hstep. induction l as [|x l IH]; cbn; intros acc acc' Hacc H.
  - injection H as <-. split; [assumption|lia].
  - destruct (body acc x) as [acc1|] eqn:E; [|discriminate].
    destruct (Hstep _ _ _ Hacc E) as [H1 H2].
    destruct (IH _ _ H1 H) as [H3 H4]. split; [assumption|lia].
Qed.

Lemma file_body_well_formed (structure structure' : list (str * json))
    (item : str * json) :
  well_formed structure ->
  file_body repr structure item = Some structure' ->
  well_formed structure'
  /\ List.length structure <= List.length structure'.
Proof.
  intros Hw. unfold file_body. destruct item as [file_name content].
  destruct (endswith file_name (lit ".json"));
    [|intros [= <-]; split; [assumption|lia]].
  destruct (py_contains (lit "pdf_info") content) as [[|]|];
    [|intros [= <-]; split; [assumption|lia]|discriminate].
  destruct (py_getitem content (lit "pdf_info")) as [pdf_info|];
    [|discriminate].
  destruct (py_iter pdf_info) as [pages|]; [|discriminate].
  apply (for_each_invariant (page_body repr) well_formed
           (@List.length (str * json))); [|assumption].
  intros acc x acc' Ha Hb. now apply (page_body_well_formed acc acc' x).
Qed.

Lemma structure_of_well_formed (parse_content : json)
    (structure : list (str * json)) :
  structure_of repr parse_content = Some structure ->
  well_formed structure.
Proof.
  assert (H0 : well_formed [(lit "has_content", JBool true)])
    by (exists []; split; [reflexivity|constructor]).
  unfold structure_of.
  destruct (py_contains (lit "contents") parse_content) as [[|]|];
    [|intros [= <-]; assumption|discriminate].
  destruct (py_getitem parse_content (lit "contents")) as [contents|];
    [|discriminate].
  destruct (py_items contents) as [items|]; [|discriminate].
  intros H.
  apply (for_each_invariant (file_body repr) well_formed
           (@List.length (str * json))) in H; [tauto| |assumption].
  intros acc x acc' Ha Hb. now apply (file_body_well_formed acc acc' x).
Qed.

Lemma content_types_of_shape (parse_content : json)
    (content_types : list (str * json)) :
  content_types_of parse_content = Some content_types ->
  content_types = [(lit "default", JStr (lit "text"))]
  \/ exists n, 0 < n
               /\ content_types = [ (lit "default", JStr (lit "text"));
                                    (lit "images", JNum (Z.of_nat n)) ].
Proof.
  unfold content_types_of.
  destruct (py_contains (lit "images") parse_content) as [[|]|];
    [|intros [= <-]; now left|discriminate].
  destruct (py_getitem parse_content (lit "images")) as [images|];
    [|discriminate].
  destruct (py_truthy images) eqn:T; [|intros [= <-]; now left].
  destruct (py_len images) as [n|] eqn:L; [|discriminate].
  intros [= <-]. right. exists n. split; [|reflexivity].
  destruct images as [| | |s|l|d]; cbn in L, T; try discriminate;
    injection L as <-;
    match goal with |- 0 < List.length ?x => destruct x end;
    (discriminate || cbn; lia).
Qed.

End StructuredInfo.

(** X17.  Whenever [extract_structured_info] returns, the dictionary it
    returns holds real content only: [content_types], if present, is the
    default entry followed by a positive number of images; [structure],
    if present, is the entry [has_content] followed by at least one page
    entry, each under a key [page_...] with the three counts; and there
    is no other key.  The dictionaries that hold only their default entry
    are never returned. *)
Theorem structured_info_has_content (repr : json -> str)
    (parse_content : json) (info : list (str * json)) :
  extract_structured_info repr parse_content = Some info ->
  exists content_part structure_part,
    info = content_part ++ structure_part
    /\ (content_part = []
        \/ exists n,
             0 < n
             /\ content_part
                = [ (lit "content_types",
                     JDict [ (lit "default", JStr (lit "text"));
                             (lit "images", JNum (Z.of_nat n)) ]) ])
    /\ (structure_part = []
        \/ exists pages,
             pages <> []
             /\ Forall page_entry pages
             /\ structure_part
                = [ (lit "structure",
                     JDict ((lit "has_content", JBool true) :: pages)) ]).
Proof.
  unfold extract_structured_info.
  destruct (content_types_of parse_content) as [ct|] eqn:Ec; [|discriminate].
  destruct (structure_of repr parse_content) as [st|] eqn:Es; [|discriminate].
  intros [= <-]. eexists _, _. split; [reflexivity|]. split.
  - destruct (content_types_of_shape _ _ Ec) as [->|(n & Hn & ->)];
      [now left|].
    right. exists n. split; [assumption|reflexivity].
  - destruct (structure_of_well_formed repr _ _ Es) as (pages & -> & Hp).
    destruct pages as [|p pages]; [now left|].
    right. exists (p :: pages). split; [discriminate|]. split; [assumption|].
    reflexivity.
Qed.

Lemma structured_info_has_content_witness :
  exists info,
    extract_structured_info (fun _ => []) sample_parse_content = Some info
    /\ exists content_part structure_part,
         info = content_part ++ structure_part
         /\ (content_part = []
             \/ exists n,
                  0 < n
                  /\ content_part
                     = [ (lit "content_types",
                          JDict [ (lit "default", JStr (lit "text"));
                                  (lit "images", JNum (Z.of_nat n)) ]) ])
         /\ (structure_part = []
             \/ exists pages,
                  pages <> []
                  /\ Forall page_entry pages
                  /\ structure_part
                     = [ (lit "structure",
                          JDict ((lit "has_content", JBool true) :: pages)) ]).
Proof.
  eexists. split; [reflexivity|].
  apply (structured_info_has_content (fun _ => []) sample_parse_content).
  reflexivity.
Defined.

(** ** The threshold, place by place *)

Section SoftBound.

Variable config : ChunkingConfig.

Hypothesis size_nonneg : (0 <= size config)%Z.

Lemma loop_body_soft_bound (ts : Trace.tstate) (i : nat) (p : str) :
  (Trace.pending_words ts <= size config)%Z ->
  Forall (soft_bound config) (snd (Trace.loop_body config ts i p))
  /\ (Trace.pending_words (fst (Trace.loop_body config ts i p))
      <= size config)%Z.
Proof.
  unfold Trace.pending_words, Trace.loop_body. intros Hinv.
  destruct (header_pattern_match (strip p)) as [[g1 g2]|].
  - destruct (truthy (Trace.t_chunk ts) && _); cbn [fst snd Trace.t_chunk].
    + split; [|exact size_nonneg].
      constructor; [exact Hinv|constructor].
    + split; [constructor|exact Hinv].
  - destruct ((table_pattern_search p || image_pattern_search p)
              && negb (truthy (Trace.t_chunk ts))
              && truthy (Trace.t_header ts)) eqn:Seed.
    + apply andb_prop in Seed as [Seed _].
      apply andb_prop in Seed as [_ Seed].
      destruct (Trace.t_chunk ts) eqn:Ec; [|discriminate].
      cbn [app map Trace.txt Trace.header_item] in *.
      match goal with |- context [Z.ltb ?a ?b] =>
        destruct (Z.ltb_spec a b) as [Hlt|Hge] end;
        cbn [fst snd Trace.t_chunk]; [|split; [constructor|exact Hge]].
      split; [|exact size_nonneg]. constructor; [|constructor].
      unfold soft_bound, chunk_words, last_words, attached, seeded,
        Trace.prefix_text, Trace.body.
      cbn [Trace.flush_site Trace.prefix Trace.items map Trace.txt
           Trace.header_item Trace.from_header Trace.idx filter last app].
      rewrite words_of_single.
      change (join_blank [Trace.t_header ts; p])
        with (join_blank ([Trace.t_header ts] ++ [p])) in *.
      rewrite word_count_join_snoc in *.
      change (join_blank [Trace.t_header ts]) with (Trace.t_header ts) in *.
      change (word_count []) with 0. lia.
    + rewrite map_app in *. cbn [map Trace.txt] in *.
      match goal with |- context [Z.ltb ?a ?b] =>
        destruct (Z.ltb_spec a b) as [Hlt|Hge] end;
        cbn [fst snd Trace.t_chunk];
        [|split; [constructor|rewrite map_app; exact Hge]].
      split; [|exact size_nonneg]. constructor; [|constructor].
      unfold soft_bound, chunk_words, last_words, Trace.prefix_text,
        Trace.body.
      cbn [Trace.flush_site Trace.prefix Trace.items].
      rewrite map_app. cbn [map Trace.txt]. rewrite last_last.
      rewrite word_count_join_snoc in *.
      change (word_count []) with 0. lia.
Qed.

Lemma for_paragraphs_soft_bound (paragraphs : list str) :
  forall (ts : Trace.tstate) (i : nat),
    (Trace.pending_words ts <= size config)%Z ->
    Forall (soft_bound config)
           (snd (Trace.for_paragraphs config ts i paragraphs))
    /\ (Trace.pending_words (fst (Trace.for_paragraphs config ts i paragraphs))
        <= size config)%Z.
Proof.
  induction paragraphs as [|p rest IH]; intros ts i Hinv.
  - cbn. split; [constructor|exact Hinv].
  - cbn [Trace.for_paragraphs].
    destruct (loop_body_soft_bound ts i p Hinv) as [F1 I1].
    destruct (Trace.loop_body config ts i p) as [ts1 y1]. cbn [fst snd] in *.
    destruct (IH ts1 (S i) I1) as [F2 I2].
    destruct (Trace.for_paragraphs config ts1 (S i) rest) as [ts2 y2].
    cbn [fst snd] in *. split; [|exact I2].
    apply Forall_app. split; assumption.
Qed.

Lemma document_trace_soft_bound (text : str) :
  Forall (soft_bound config) (Trace.document_trace config text).
Proof.
  unfold Trace.document_trace.
  destruct (for_paragraphs_soft_bound (split_blank text)
              Trace.initial_tstate 0) as [F I]; [exact size_nonneg|].
  destruct (Trace.for_paragraphs config Trace.initial_tstate 0
              (split_blank text)) as [ts y]. cbn [fst snd] in *.
  apply Forall_app. split; [exact F|].
  unfold Trace.last_chunk. destruct (truthy (Trace.t_chunk ts));
    repeat constructor. exact I.
Qed.

Lemma run_from_soft_bound (input : list str) :
  forall doc_idx,
    Forall (fun df => soft_bound config (snd df))
           (run_from_trace config doc_idx input).
Proof.
  induction input as [|text rest IH]; intros d; [constructor|].
  cbn [run_from_trace]. apply Forall_app. split; [|apply IH].
  apply Forall_map. cbn [snd]. unfold run_document_trace.
  destruct (negb (truthy text)); [constructor|].
  apply document_trace_soft_bound.
Qed.

End SoftBound.

(** C2, amended.  For every input and every positive [size], the
    threshold is checked after a paragraph has been appended, for a plain
    paragraph as for one with a table or an image.  The token estimate of
    a chunk is the words of the header put in front of it plus the words
    of its joined entries, and: a chunk yielded by the size check has
    more than [size] tokens, and at most [size] plus the words of its
    last paragraph plus the words of the header text attached to it; a
    chunk yielded at a header paragraph or at the end of a document has
    at most [size] words in its joined entries, so that it exceeds [size]
    by the words of the header put in front of it at most. *)
Theorem size_bound_by_site (input : list str) (config : ChunkingConfig) :
  (0 < size config)%Z ->
  yielded_chunks (run_markdown input config)
  = map render_at (run_markdown_trace input config)
  /\ Forall (fun df =>
               n_tokens (render_at df) = chunk_words (snd df)
               /\ soft_bound config (snd df))
            (run_markdown_trace input config).
Proof.
  intros Hs. split; [apply run_from_chunks|].
  assert (Hb : Forall (fun df => soft_bound config (snd df))
                      (run_markdown_trace input config))
    by (apply run_from_soft_bound; lia).
  apply Forall_forall. intros df Hin.
  split; [apply render_tokens|exact (proj1 (Forall_forall _ _) Hb df Hin)].
Qed.

Lemma size_bound_by_site_witness :
  (0 < size {| size := 3; overlap := 0 |})%Z
  /\ yielded_chunks (run_markdown [scenario] {| size := 3; overlap := 0 |})
     = map render_at (run_markdown_trace [scenario] {| size := 3; overlap := 0 |})
  /\ Forall (fun df =>
               n_tokens (render_at df) = chunk_words (snd df)
               /\ soft_bound {| size := 3; overlap := 0 |} (snd df))
            (run_markdown_trace [scenario] {| size := 3; overlap := 0 |}).
Proof.
  split; [reflexivity|].
  apply (size_bound_by_site [scenario] {| size := 3; overlap := 0 |}).
  reflexivity.
Defined.

(** ** Reading paragraphs back from a chunk *)

Section ReadBack.

Lemma ends_with_newline_cons (c d : char) (s : str) :
  ends_with_newline (c :: d :: s) <-> ends_with_newline (d :: s).
Proof.
  unfold ends_with_newline. split; intros [l E].
  - destruct l as [|a l]; [discriminate|].
    injection E as _ E. now exists l.
  - exists (c :: l). cbn. now rewrite E.
Qed.

Lemma ends_with_newline_nil : ~ ends_with_newline [].
Proof. intros [l E]. destruct l; discriminate. Qed.

Lemma ends_with_newline_single (c : char) :
  ends_with_newline [c] -> c = NL.
Proof.
  intros [l E]. destruct l as [|a l].
  - now injection E.
  - injection E as _ E. destruct l; discriminate.
Qed.

(** The first paragraph of a non-empty text is empty only when the text
    starts with a newline; otherwise it starts as the text does. *)
Lemma split_blank_first (c : char) (r : str) :
  exists p ps,
    split_blank (c :: r) = p :: ps
    /\ ((p = [] /\ c = NL) \/ exists p', p = c :: p').
Proof.
  destruct r as [|c' r]; [exists [c], []; split; [reflexivity|right; eauto]|].
  rewrite split_blank_cons2.
  destruct ((c =? NL) && (c' =? NL))%N eqn:E.
  - apply andb_prop in E as [E _]. apply N.eqb_eq in E.
    eexists _, _. split; [reflexivity|now left].
  - destruct (split_blank (c' :: r)) as [|p ps];
      eexists _, _; (split; [reflexivity|right; eauto]).
Qed.

(** A paragraph holds no separator. *)
Lemma split_blank_single (s : str) :
  Forall (fun p => split_blank p = [p]) (split_blank s).
Proof.
  induction s as [|c|c c' r IHr IHc] using str_ind2.
  - repeat constructor.
  - repeat constructor.
  - rewrite split_blank_cons2.
    destruct ((c =? NL) && (c' =? NL))%N eqn:E.
    + constructor; [reflexivity|exact IHr].
    + destruct (split_blank_first c' r) as (p & ps & Ep & Hp).
      rewrite Ep in *. inversion IHc as [|? ? Hsingle Hrest]; subst.
      constructor; [|exact Hrest].
      destruct Hp as [[-> ->]|[p' ->]]; [reflexivity|].
      rewrite split_blank_cons2, E, Hsingle. reflexivity.
Qed.

(** No paragraph but the last ends with a newline. *)
Lemma split_blank_inner (s : str) :
  Forall (fun p => ~ ends_with_newline p) (removelast (split_blank s)).
Proof.
  induction s as [|c|c c' r IHr IHc] using str_ind2.
  - constructor.
  - constructor.
  - rewrite split_blank_cons2.
    destruct ((c =? NL) && (c' =? NL))%N eqn:E.
    + pose proof (split_blank_nonempty r) as Hne.
      destruct (split_blank r) as [|q qs] eqn:Er; [congruence|].
      change (removelast ([] :: q :: qs)) with ([] :: removelast (q :: qs)).
      constructor; [apply ends_with_newline_nil|exact IHr].
    + destruct (split_blank_first c' r) as (p & ps & Ep & Hp).
      rewrite Ep in *. destruct ps as [|q qs]; [constructor|].
      change (removelast ((c :: p) :: q :: qs))
        with ((c :: p) :: removelast (q :: qs)).
      change (removelast (p :: q :: qs)) with (p :: removelast (q :: qs))
        in IHc.
      inversion IHc as [|? ? Hp' Hrest]; subst.
      constructor; [|exact Hrest].
      destruct Hp as [[-> ->]|[p' ->]].
      * intros H. apply ends_with_newline_single in H. subst c.
        cbn in E. discriminate.
      * now rewrite ends_with_newline_cons.
Qed.

(** Cutting at the blank line after a paragraph that does not end with a
    newline gives that paragraph back. *)
Lemma split_blank_app_sep (x r : str) :
  split_blank x = [x] -> ~ ends_with_newline x ->
  split_blank (x ++ NL :: NL :: r) = x :: split_blank r.
Proof.
  induction x as [|c|c c' x0 IH0 IHc] using str_ind2; intros Hs Hn.
  - reflexivity.
  - change ([c] ++ NL :: NL :: r) with (c :: NL :: NL :: r).
    rewrite split_blank_cons2.
    destruct (N.eqb_spec c NL) as [->|Hc].
    + exfalso. apply Hn. now exists [].
    + cbn [andb]. change (split_blank (NL :: NL :: r)) with ([] :: split_blank r).
      reflexivity.
  - change ((c :: c' :: x0) ++ NL :: NL :: r)
      with (c :: c' :: (x0 ++ NL :: NL :: r)).
    rewrite split_blank_cons2 in *.
    destruct ((c =? NL) && (c' =? NL))%N; [discriminate|].
    assert (Hs' : split_blank (c' :: x0) = [c' :: x0]).
    { destruct (split_blank (c' :: x0)) as [|p ps]; [discriminate|].
      now injection Hs as -> ->. }
    change (c' :: (x0 ++ NL :: NL :: r)) with ((c' :: x0) ++ NL :: NL :: r).
    rewrite IHc; [reflexivity|exact Hs'|].
    now rewrite <- (ends_with_newline_cons c).
Qed.

(** Joining paragraphs and cutting again gives the paragraphs back, when
    none but the last ends with a newline. *)
Lemma split_join_blank (L : list str) :
  L <> [] ->
  Forall (fun p => split_blank p = [p]) L ->
  Forall (fun p => ~ ends_with_newline p) (removelast L) ->
  split_blank (join_blank L) = L.
Proof.
  induction L as [|x L IH]; [congruence|]. intros _ Hs Hn.
  inversion Hs as [|? ? Hx Hrest]; subst.
  destruct L as [|y L']; [exact Hx|].
  change (removelast (x :: y :: L')) with (x :: removelast (y :: L')) in Hn.
  inversion Hn as [|? ? Hnx Hnrest]; subst.
  rewrite join_blank_cons by discriminate.
  change (x ++ [NL; NL] ++ join_blank (y :: L'))
    with (x ++ NL :: NL :: join_blank (y :: L')).
  rewrite split_blank_app_sep by assumption.
  rewrite IH by (discriminate || assumption). reflexivity.
Qed.

Lemma removelast_forall {A : Type} (P : A -> Prop) (L : list A) :
  (forall l1 x l2, L = l1 ++ x :: l2 -> l2 <> [] -> P x) ->
  Forall P (removelast L).
Proof.
  induction L as [|a L IH]; intros H; [constructor|].
  destruct L as [|b L']; [constructor|].
  change (removelast (a :: b :: L')) with (a :: removelast (b :: L')).
  constructor.
  - apply (H [] a (b :: L')); [reflexivity|discriminate].
  - apply IH. intros l1 x l2 E Hl2.
    apply (H (a :: l1) x l2); [cbn; now rewrite E|assumption].
Qed.

(** A paragraph of the text that ends with a newline is its last one. *)
Lemma newline_paragraph_last (ps : list str) (k : nat) (p : str) :
  Forall (fun q => ~ ends_with_newline q) (removelast ps) ->
  nth_error ps k = Some p -> ends_with_newline p ->
  S k = List.length ps /\ last ps [] = p.
Proof.
  revert k. induction ps as [|a ps IH]; intros k Hin Hk Hp.
  - destruct k; discriminate.
  - destruct ps as [|b ps'].
    + destruct k as [|k]; [|destruct k; discriminate].
      injection Hk as ->. split; reflexivity.
    + change (removelast (a :: b :: ps')) with (a :: removelast (b :: ps'))
        in Hin.
      inversion Hin as [|? ? Ha Hrest]; subst.
      destruct k as [|k]; [injection Hk as ->; contradiction|].
      destruct (IH k Hrest Hk Hp) as [H1 H2].
      split; [cbn in *; lia|exact H2].
Qed.

End ReadBack.

(** ** The entries of a yielded chunk *)

Section RecordEntries.

Variable config : ChunkingConfig.

Lemma loop_body_ends (ts : Trace.tstate) (i : nat) (p : str) :
  ends_with_paragraph (Trace.t_chunk ts) ->
  Forall (fun f => ends_with_paragraph (Trace.items f) /\ Trace.items f <> [])
         (snd (Trace.loop_body config ts i p))
  /\ ends_with_paragraph (Trace.t_chunk (fst (Trace.loop_body config ts i p))).
Proof.
  intros Hinv. unfold Trace.loop_body.
  destruct (header_pattern_match (strip p)) as [[g1 g2]|].
  - destruct (truthy (Trace.t_chunk ts)) eqn:T; cbn [andb].
    + destruct ((List.length g1 <=? Trace.t_header_level ts)
                || (Trace.t_header_level ts =? 0)); cbn [fst snd Trace.t_chunk].
      * split; [|now left]. constructor; [|constructor].
        cbn [Trace.items]. split; [exact Hinv|now apply truthy_nonempty].
      * split; [constructor|exact Hinv].
    + cbn [fst snd Trace.t_chunk]. split; [constructor|exact Hinv].
  - destruct ((table_pattern_search p || image_pattern_search p)
              && negb (truthy (Trace.t_chunk ts))
              && truthy (Trace.t_header ts));
      match goal with |- context [Z.ltb ?a ?b] => destruct (Z.ltb a b) end;
      cbn [fst snd Trace.t_chunk];
      (split;
       [try (constructor; [|constructor]; cbn [Trace.items];
             split;
             [apply ends_with_paragraph_snoc
             |intros E; apply app_eq_nil in E as [_ E]; discriminate]);
        try constructor
       |try (now left); apply ends_with_paragraph_snoc]).
Qed.

Lemma for_paragraphs_ends (paragraphs : list str) :
  forall (ts : Trace.tstate) (i : nat),
    ends_with_paragraph (Trace.t_chunk ts) ->
    Forall (fun f => ends_with_paragraph (Trace.items f)
                     /\ Trace.items f <> [])
           (snd (Trace.for_paragraphs config ts i paragraphs))
    /\ ends_with_paragraph
         (Trace.t_chunk (fst (Trace.for_paragraphs config ts i paragraphs))).
Proof.
  induction paragraphs as [|p rest IH]; intros ts i Hinv.
  - cbn. split; [constructor|exact Hinv].
  - cbn [Trace.for_paragraphs].
    destruct (loop_body_ends ts i p Hinv) as [F1 I1].
    destruct (Trace.loop_body config ts i p) as [ts1 y1]. cbn [fst snd] in *.
    destruct (IH ts1 (S i) I1) as [F2 I2].
    destruct (Trace.for_paragraphs config ts1 (S i) rest) as [ts2 y2].
    cbn [fst snd] in *. split; [|exact I2].
    apply Forall_app. split; assumption.
Qed.

Lemma document_trace_ends (text : str) :
  Forall (fun f => ends_with_paragraph (Trace.items f) /\ Trace.items f <> [])
         (Trace.document_trace config text).
Proof.
  unfold Trace.document_trace.
  destruct (for_paragraphs_ends (split_blank text) Trace.initial_tstate 0)
    as [F I]; [now left|].
  destruct (Trace.for_paragraphs config Trace.initial_tstate 0
              (split_blank text)) as [ts y]. cbn [fst snd] in *.
  apply Forall_app. split; [exact F|].
  unfold Trace.last_chunk. destruct (truthy (Trace.t_chunk ts)) eqn:T;
    [|constructor].
  constructor; [|constructor]. cbn [Trace.items].
  split; [exact I|now apply truthy_nonempty].
Qed.

Lemma non_headers_spec (paragraphs : list str) :
  forall (start k : nat) (p : str),
    In (k, p) (non_headers start paragraphs) ->
    start <= k
    /\ nth_error paragraphs (k - start) = Some p
    /\ is_header p = false.
Proof.
  induction paragraphs as [|q rest IH]; intros start k p Hin.
  - contradiction.
  - rewrite non_headers_cons in Hin. apply in_app_or in Hin as [Hin|Hin].
    + destruct (is_header q) eqn:Hq; [contradiction|].
      destruct Hin as [[= <- <-]|[]].
      rewrite Nat.sub_diag. repeat split; [lia|assumption].
    + destruct (IH _ _ _ Hin) as (H1 & H2 & H3).
      replace (k - start) with (S (k - S start)) by lia.
      repeat split; [lia|assumption|assumption].
Qed.

Lemma non_headers_sorted (paragraphs : list str) :
  forall start,
    StronglySorted lt (map fst (non_headers start paragraphs)).
Proof.
  induction paragraphs as [|q rest IH]; intros start; [constructor|].
  rewrite non_headers_cons, map_app. destruct (is_header q); cbn.
  - apply IH.
  - constructor; [apply IH|].
    apply Forall_forall. intros k Hk. apply non_headers_ge in Hk. lia.
Qed.

Lemma sorted_middle (l1 l2 : list nat) (k k' : nat) :
  StronglySorted lt (l1 ++ k :: l2) -> In k' l2 -> k < k'.
Proof.
  induction l1 as [|a l1 IH]; cbn; intros Hs Hin.
  - apply StronglySorted_inv in Hs as [_ Hf].
    rewrite Forall_forall in Hf. now apply Hf.
  - apply StronglySorted_inv in Hs as [Hs _]. auto.
Qed.

Lemma map_removelast {A B : Type} (g : A -> B) (l : list A) :
  removelast (map g l) = map g (removelast l).
Proof.
  induction l as [|a l IH]; [reflexivity|].
  destruct l as [|b l']; [reflexivity|].
  change (removelast (map g (a :: b :: l')))
    with (g a :: removelast (map g (b :: l'))).
  rewrite IH. reflexivity.
Qed.

Lemma filter_entries (items : list Trace.item) :
  Forall (fun it => is_header (Trace.txt it) = Trace.from_header it) items ->
  filter (fun p => negb (is_header p)) (map Trace.txt items)
  = map snd (map (fun it => (Trace.idx it, Trace.txt it))
                 (filter (fun it => negb (Trace.from_header it)) items)).
Proof.
  induction 1 as [|it l Hit _ IH]; [reflexivity|].
  cbn [map filter]. rewrite Hit, IH.
  destruct (Trace.from_header it); reflexivity.
Qed.

Variable text : str.

Hypothesis no_trailing_header : ~ trailing_header text.

(** A header paragraph of the document does not end with a newline. *)
Lemma header_paragraph_unbroken (k : nat) (s : str) :
  nth_error (split_blank text) k = Some s -> is_header s = true ->
  ~ ends_with_newline s.
Proof.
  intros Hk Hh Hn. apply no_trailing_header.
  destruct (newline_paragraph_last (split_blank text) k s
              (split_blank_inner text) Hk Hn) as [_ Hl].
  unfold trailing_header. rewrite Hl. split; assumption.
Qed.

(** What the text of a yielded chunk gives back, cut at its blank lines
    and without its header paragraphs: the paragraphs appended to it. *)
Lemma record_read_back (doc_idx : nat) (f : Trace.flushed) :
  In f (Trace.document_trace config text) ->
  recovered_paragraphs (Trace.render doc_idx f) = map snd (Trace.appended f).
Proof.
  intros Hf.
  pose proof (document_trace_appended config text) as Happ.
  destruct (document_trace_attached config text) as [_ Hatt].
  pose proof (document_trace_ends text) as Hends.
  rewrite Forall_forall in Hends. destruct (Hends f Hf) as [Hend Hne].
  rewrite Forall_forall in Hatt.
  assert (Happended : forall k p, In (k, p) (Trace.appended f) ->
            In (k, p) (non_headers 0 (split_blank text))).
  { intros k p Hin. rewrite <- Happ. apply in_concat.
    exists (Trace.appended f). split; [now apply in_map|assumption]. }
  assert (Hattached : forall k s, In (k, s) (attached f) ->
            nth_error (split_blank text) k = Some s /\ is_header s = true).
  { intros k s Hin.
    assert (H : In (k, s) (List.concat
                             (map attached (Trace.document_trace config text)))).
    { apply in_concat. exists (attached f). split; [now apply in_map|assumption]. }
    destruct (Hatt _ H) as (_ & H2 & H3). split; assumption. }
  (* every entry is a paragraph of the document, of the labelled kind *)
  assert (Hkind : Forall (fun it => is_header (Trace.txt it)
                                    = Trace.from_header it
                                    /\ In (Trace.txt it) (split_blank text))
                         (Trace.items f)).
  { apply Forall_forall. intros it Hit.
    destruct (Trace.from_header it) eqn:Hfh.
    - destruct (Hattached (Trace.idx it) (Trace.txt it)) as [H1 H2].
      { unfold attached, seeded. apply in_or_app. left.
        apply (in_map (fun x => (Trace.idx x, Trace.txt x))).
        apply filter_In. split; assumption. }
      split; [exact H2|eapply nth_error_In; exact H1].
    - destruct (non_headers_spec (split_blank text) 0 (Trace.idx it)
                  (Trace.txt it)) as (_ & H2 & H3).
      { apply Happended. unfold Trace.appended.
        apply (in_map (fun x => (Trace.idx x, Trace.txt x))).
        apply filter_In. split; [assumption|now rewrite Hfh]. }
      split; [exact H3|eapply nth_error_In; exact H2]. }
  (* no entry but the last ends with a newline *)
  assert (Hinner : Forall (fun it => ~ ends_with_newline (Trace.txt it))
                          (removelast (Trace.items f))).
  { apply removelast_forall. intros l1 it l2 E Hl2 Hnl.
    destruct (Trace.from_header it) eqn:Hfh.
    - destruct (Hattached (Trace.idx it) (Trace.txt it)) as [H1 H2].
      { unfold attached, seeded. apply in_or_app. left.
        apply (in_map (fun x => (Trace.idx x, Trace.txt x))).
        apply filter_In. split; [rewrite E; apply in_elt|assumption]. }
      exact (header_paragraph_unbroken _ _ H1 H2 Hnl).
    - (* an appended paragraph followed by another one *)
      destruct Hend as [Hnil|(l' & z & Ez & Hz)]; [congruence|].
      assert (Hz2 : exists l2', l2 = l2' ++ [z]).
      { rewrite E in Ez. destruct (exists_last Hl2) as (l2' & z' & ->).
        exists l2'. rewrite app_comm_cons, app_assoc in Ez.
        apply app_inj_tail in Ez as [_ ->]. reflexivity. }
      destruct Hz2 as (l2' & ->).
      set (pend := fun l : list Trace.item =>
                     map (fun x => (Trace.idx x, Trace.txt x))
                         (filter (fun x => negb (Trace.from_header x)) l)).
      assert (Ea : Trace.appended f
                   = pend l1 ++ (Trace.idx it, Trace.txt it)
                       :: pend l2' ++ [(Trace.idx z, Trace.txt z)]).
      { unfold Trace.appended, pend. rewrite E, filter_app. cbn [filter].
        rewrite Hfh. cbn [negb]. rewrite filter_app. cbn [filter].
        rewrite Hz. cbn [negb]. rewrite map_app. cbn [map].
        rewrite map_app. reflexivity. }
      apply in_split in Hf as (T1 & T2 & ET).
      assert (EL : non_headers 0 (split_blank text)
                   = (List.concat (map Trace.appended T1) ++ pend l1)
                       ++ (Trace.idx it, Trace.txt it)
                       :: pend l2' ++ (Trace.idx z, Trace.txt z)
                       :: List.concat (map Trace.appended T2)).
      { rewrite <- Happ, ET, map_app, concat_app. cbn [map List.concat].
        rewrite Ea. rewrite <- ?app_assoc. cbn [app].
        rewrite <- ?app_assoc. reflexivity. }
      pose proof (non_headers_sorted (split_blank text) 0) as Hs.
      rewrite EL, map_app in Hs. cbn [map fst] in Hs.
      assert (Hlt : Trace.idx it < Trace.idx z).
      { eapply sorted_middle; [exact Hs|].
        rewrite map_app. cbn [map fst].
        apply in_or_app. right. now left. }
      destruct (non_headers_spec (split_blank text) 0 (Trace.idx z)
                  (Trace.txt z)) as (_ & Hz2 & _).
      { apply Happended. rewrite Ea. apply in_or_app. right. right.
        apply in_or_app. right. now left. }
      destruct (non_headers_spec (split_blank text) 0 (Trace.idx it)
                  (Trace.txt it)) as (_ & Hit2 & _).
      { apply Happended. rewrite Ea. apply in_elt. }
      rewrite Nat.sub_0_r in *.
      destruct (newline_paragraph_last (split_blank text) _ _
                  (split_blank_inner text) Hit2 Hnl) as [Hlast _].
      assert (Trace.idx z < List.length (split_blank text))
        by (apply nth_error_Some; congruence).
      lia. }
  (* the text of the chunk, cut at its blank lines *)
  assert (Hsingle : forall p, In p (split_blank text) -> split_blank p = [p]).
  { pose proof (split_blank_single text) as H. rewrite Forall_forall in H.
    exact H. }
  unfold recovered_paragraphs, Trace.render, Trace.body. cbn [text_chunk].
  assert (Hmap_ne : map Trace.txt (Trace.items f) <> []).
  { intros E. apply map_eq_nil in E. contradiction. }
  assert (Hsingles : Forall (fun p => split_blank p = [p])
                            (map Trace.txt (Trace.items f))).
  { apply Forall_map. eapply Forall_impl; [|exact Hkind].
    intros it [_ Hin]. now apply Hsingle. }
  assert (Hinner' : Forall (fun p => ~ ends_with_newline p)
                           (removelast (map Trace.txt (Trace.items f)))).
  { rewrite map_removelast. now apply Forall_map. }
  assert (Hfilter : filter (fun p => negb (is_header p))
                           (map Trace.txt (Trace.items f))
                    = map snd (Trace.appended f)).
  { apply filter_entries. eapply Forall_impl; [|exact Hkind].
    intros it [H _]. exact H. }
  destruct (Trace.prefix f) as [h|] eqn:Eh.
  - destruct (Hattached (Trace.idx h) (Trace.txt h)) as [H1 H2].
    { unfold attached. rewrite Eh. apply in_or_app. right. now left. }
    unfold with_header.
    rewrite <- (join_blank_cons (Trace.txt h) (map Trace.txt (Trace.items f)))
      by assumption.
    rewrite split_join_blank.
    + cbn [filter]. rewrite H2. cbn [negb]. exact Hfilter.
    + discriminate.
    + constructor; [|exact Hsingles].
      apply Hsingle. eapply nth_error_In; exact H1.
    + destruct (map Trace.txt (Trace.items f)) as [|y l] eqn:Em;
        [congruence|].
      change (removelast (Trace.txt h :: y :: l))
        with (Trace.txt h :: removelast (y :: l)).
      constructor; [|exact Hinner'].
      exact (header_paragraph_unbroken _ _ H1 H2).
  - rewrite split_join_blank by assumption. exact Hfilter.
Qed.

End RecordEntries.



